(** * coSPEC n8n node: error extraction, output normalisation, run polling

    A shallow embedding of [GenericFunctions.ts] (the API client, the error
    extractor and the output normaliser), of [Cospec.node.ts] (the operation
    handlers, the poller and the [execute] loop) and of the webhook methods
    of [CospecTrigger.node.ts], followed by the properties the specification
    states about them and further properties of the code.

    Modelling conventions.
    - A JavaScript value is a [value]; an object is a finite map from
      property names to values.  Numbers are the integers ([Z]): the program
      only adds and multiplies integral millisecond and second counts, and
      prints them in decimal.  A JavaScript number is such an integer, and
      is printed so, only below 2^53 in magnitude; statements about printed
      numbers or about the deadline say so ([exact_deadline]).
    - A [throw] is the [Throw] constructor of [result]; the asynchronous
      handlers run in a state-and-exception monad [M] over a [World] holding
      the wall clock and the chronological log of sleeps and HTTP requests.
    - The host ([this]: credentials, node parameters, the HTTP helper, the
      timer) is a [Host] record taken as a section variable.  The
      credentials are taken as resolved, with a string base URL, and a
      response body as an object.
    - The error class [NodeOperationError] belongs to the host library.  An
      [exn] records the call of its constructor; what the constructed error
      then shows as its message is the library's, an [ErrorClass]. *)

From stdpp Require Import gmap strings list fin_maps pretty.
From Equations Require Import Equations.

Set Warnings "-register-all".

Local Open Scope Z_scope.

(** ** JavaScript values *)

Inductive value : Type :=
| VUndefined
| VNull
| VBool (b : bool)
| VNum (n : Z)
| VStr (s : string)
| VArr (l : list value)
| VObj (o : gmap string value).

Abbreviation obj := (gmap string value).

(** Errors the program can raise.  [TypeError] is what the runtime raises on
    a property read of [null]/[undefined] or a call of a non-function;
    [NodeOperationError message itemIndex] is
    [throw new NodeOperationError(node, message, { itemIndex })]: the host's
    error class, called by the program with a message and, for the poller's
    timeout, an item index.  The constructor is the host library's; what it
    makes of [message] is read with [shown_message]. *)
Inductive exn : Type :=
| TypeError
| NodeOperationError (message : value) (itemIndex : option nat).

(** The host library's error class.  [build message] is the [message]
    property of the error that [new NodeOperationError(node, message)]
    constructs, [None] when the constructor itself raises a [TypeError].
    The library's class keeps a string message unless it contains a Node
    error code, which it replaces by a description of that code, and it can
    raise on a message that is not a string. *)
Record ErrorClass : Type := {
  build : value → option string;
}.

(** [error.message] of a caught error that is an instance of the class;
    [None] for a [TypeError], whose text is the runtime's. *)
Definition shown_message (cls : ErrorClass) (e : exn) : option string :=
  match e with
  | TypeError => None
  | NodeOperationError message _ => build cls message
  end.

Inductive result (A : Type) : Type :=
| Ok (a : A)
| Throw (e : exn).
Arguments Ok {A} a.
Arguments Throw {A} e.

#[global] Instance result_ret : MRet result := λ A a, Ok a.
#[global] Instance result_bind : MBind result := λ A B f r,
  match r with
  | Ok a => f a
  | Throw e => Throw e
  end.

(** [if (v)], [v || w], [!v]. *)
Definition truthy (v : value) : bool :=
  match v with
  | VUndefined | VNull => false
  | VBool b => b
  | VNum n => negb (n =? 0)
  | VStr s => negb (String.eqb s "")
  | VArr _ | VObj _ => true
  end.

(** The values [??] and [?.] treat as missing. *)
Definition nullish (v : value) : bool :=
  match v with
  | VUndefined | VNull => true
  | _ => false
  end.

(** [typeof v === 'string'] *)
Definition is_string (v : value) : bool :=
  match v with
  | VStr _ => true
  | _ => false
  end.

(** [v === s] for a string literal [s]. *)
Definition strict_eq_str (v : value) (s : string) : bool :=
  match v with
  | VStr s' => bool_decide (s' = s)
  | _ => false
  end.

(** [o.k] on an object. *)
Definition field (o : obj) (k : string) : value := default VUndefined (o !! k).

(** The property read [v.k].  It raises on [null] and [undefined].  The names
    the program reads ([context], [data], [detail], [type], ...) are neither
    [length], nor an index, nor on a built-in prototype, so on an array or a
    primitive the read finds nothing. *)
Definition get (v : value) (k : string) : result value :=
  match v with
  | VUndefined | VNull => Throw TypeError
  | VObj o => Ok (field o k)
  | _ => Ok VUndefined
  end.

(** The optional chain [v?.k]. *)
Definition get_opt (v : value) (k : string) : value :=
  match v with
  | VObj o => field o k
  | _ => VUndefined
  end.

(** [v ?? w] *)
Definition coalesce (v w : value) : value := if nullish v then w else v.

(** What a template literal [`${v}`] prints.  Integers print in decimal (the
    runtime switches to exponent notation only from 1e21 on); an array prints
    its elements joined by commas, [null] and [undefined] elements as the
    empty string. *)
Fixpoint template_str (v : value) : string :=
  match v with
  | VUndefined => "undefined"
  | VNull => "null"
  | VBool true => "true"
  | VBool false => "false"
  | VNum n => pretty n
  | VStr s => s
  | VArr l =>
      let elem x := if nullish x then "" else template_str x in
      (fix join (l : list value) : string :=
         match l with
         | [] => ""
         | x :: l' =>
             match l' with
             | [] => elem x
             | _ :: _ => elem x +:+ "," +:+ join l'
             end
         end) l
  | VObj _ => "[object Object]"
  end.

(** ** GenericFunctions.ts: the error extractor *)

(** Extracts a message from an RFC 9457 response body: [detail], then the
    first validation error, then [title]; [undefined] when none is a
    string. *)
Definition extractFromBody (data : value) : result value :=
  detail ← get data "detail";
  if is_string detail then Ok detail else
  errors ← get data "errors";
  fromErrors ←
    match errors with
    | VArr (first :: _) =>
        message ← get first "message";
        Ok (if is_string message then Some message else None)
    | _ => Ok None
    end;
  match fromErrors with
  | Some message => Ok message
  | None =>
      title ← get data "title";
      if is_string title then Ok title else Ok VUndefined
  end.

Definition extractApiErrorMessage (error : value) : result value :=
  context ← get error "context";
  let contextData := get_opt context "data" in
  fromContext ← (if truthy contextData then extractFromBody contextData
                 else Ok VUndefined);
  if truthy fromContext then Ok fromContext else
  cause ← get error "cause";
  let causeData := get_opt (get_opt cause "response") "data" in
  fromCause ← (if truthy causeData then extractFromBody causeData
               else Ok VUndefined);
  if truthy fromCause then Ok fromCause else
  description ← get error "description";
  if is_string description then Ok description else
  message ← get error "message";
  Ok (if truthy message then message else VStr "Unknown API error").

(** ** GenericFunctions.ts: the output normaliser *)

Definition INTERNAL_FIELDS : gset string :=
  {[ "callbackUrl"; "callbackStatus"; "cancelRequestedAt"; "templateId" ]}.

(** [Array.prototype.find] with a predicate that may raise: the first element
    the predicate accepts, [undefined] when there is none. *)
Fixpoint array_find (p : value → result bool) (l : list value) : result value :=
  match l with
  | [] => Ok VUndefined
  | o :: l' =>
      b ← p o;
      if (b : bool) then Ok o else array_find p l'
  end.

(** [outputs.find((o) => o.type === type)]; calling [find] on anything but
    an array raises (no other value the API can send has that method). *)
Definition firstOfType (outputs : value) (type : string) : result value :=
  match outputs with
  | VArr l => array_find (λ o, t ← get o "type"; Ok (strict_eq_str t type)) l
  | _ => Throw TypeError
  end.

Definition flattenRunOutput (run : obj) : result obj :=
  let filtered : obj := filter (λ kv, kv.1 ∉ INTERNAL_FIELDS) run in
  let outputs := coalesce (field filtered "outputs") (VArr []) in
  pr ← firstOfType outputs "pr";
  issue ← firstOfType outputs "issue";
  branch ← firstOfType outputs "branch";
  text ← firstOfType outputs "text";
  prOut ←
    (if truthy pr then
       url ← get pr "url"; title ← get pr "title"; number ← get pr "number";
       Ok (VObj {[ "url" := url; "title" := title; "number" := number ]})
     else Ok VNull);
  issueOut ←
    (if truthy issue then
       url ← get issue "url"; title ← get issue "title";
       number ← get issue "number";
       Ok (VObj {[ "url" := url; "title" := title; "number" := number ]})
     else Ok VNull);
  branchOut ←
    (if truthy branch then
       name ← get branch "name"; Ok (VObj {[ "name" := name ]})
     else Ok VNull);
  let summary := coalesce (get_opt text "content") VNull in
  Ok (<["summary" := summary]>
        (<["branch" := branchOut]>
           (<["issue" := issueOut]>
              (<["pr" := prOut]> filtered)))).

(** ** Cospec.node.ts: the host, the world and the handler monad *)

Inductive Method : Type := GET | POST | PUT | PATCH | DELETE | HEAD.

(** [IHttpRequestOptions] as the client fills it in ([json: true] always). *)
Record Request : Type := {
  method : Method;
  url : string;
  headers : list (string * string);
  body : option obj;
}.

(** How [httpRequestWithAuthentication] settles: the parsed response body,
    an object as the service sends it, or the error it rejects with. *)
Inductive Outcome : Type :=
| Responds (response : obj)
| Rejects (error : value).

(** One item's node parameters, as [getNodeParameter] resolves them, typed
    as the node's [properties] declare them.  [guardrails] is a collection of
    number options (integral here, as all numbers); [env] is the [values]
    list of the fixed collection, [None] when not set. *)
Record Params : Type := {
  repo : string;
  prompt : string;
  template : string;
  model : string;
  branch : string;
  waitForCompletion : bool;
  guardrails : gmap string Z;
  env : option (list (string * string));
  runId : string;
}.

(** The execution context [this], the remote service and the timer:
    [baseUrl] is the credential's base URL, [parameters i] the parameters of
    item [i].  The [n]-th request made gets [http n] applied to it and takes
    [latency n] ms; the [n]-th sleep overshoots its delay by [oversleep n]
    ms. *)
Record Host : Type := {
  baseUrl : string;
  parameters : nat → Params;
  http : nat → Request → Outcome;
  latency : nat → N;
  oversleep : nat → N;
}.

(** What the handlers do to the outside: suspend for [ms] milliseconds, or
    issue an HTTP request.  An [Event] is an action with the clock reading at
    which it started. *)
Inductive Action : Type :=
| Sleep (ms : Z)
| Fetch (req : Request).

Record Event : Type := {
  at_ms : Z;
  action : Action;
}.

(** The wall clock ([Date.now()], in ms) and the chronological log. *)
Record World : Type := {
  now : Z;
  log : list Event;
}.

Definition is_sleep (e : Event) : bool :=
  match action e with Sleep _ => true | Fetch _ => false end.
Definition is_fetch (e : Event) : bool :=
  match action e with Sleep _ => false | Fetch _ => true end.

Definition sleeps (l : list Event) : nat := length (List.filter is_sleep l).
Definition fetches (l : list Event) : nat := length (List.filter is_fetch l).

Definition M (A : Type) : Type := World → result A * World.

#[global] Instance M_ret : MRet M := λ A a w, (Ok a, w).
#[global] Instance M_bind : MBind M := λ A B f m w,
  match m w with
  | (Ok a, w') => f a w'
  | (Throw e, w') => (Throw e, w')
  end.

Definition throw {A} (e : exn) : M A := λ w, (Throw e, w).
Definition lift {A} (r : result A) : M A := λ w, (r, w).

Definition POLL_INTERVAL_MS : Z := 5000.
Definition TIMEOUT_BUFFER_MS : Z := 60000.
Definition DEFAULT_TIMEOUT_SECONDS : Z := 1800.
Definition TERMINAL_STATUSES : gset string :=
  {[ "completed"; "failed"; "cancelled" ]}.

(** [TERMINAL_STATUSES.has(v)] *)
Definition TERMINAL_STATUSES_has (v : value) : bool :=
  match v with
  | VStr s => bool_decide (s ∈ TERMINAL_STATUSES)
  | _ => false
  end.

(** [s.replace(/\/$/, '')] *)
Fixpoint strip_trailing_slash (s : string) : string :=
  match s with
  | EmptyString => EmptyString
  | String c EmptyString => if String.eqb s "/" then EmptyString else s
  | String c s' => String c (strip_trailing_slash s')
  end.

Section Node.
Context (host : Host).

(** [await sleep(ms)] *)
Definition sleep (ms : Z) : M () := λ w,
  (Ok (),
   {| now := now w + ms + Z.of_N (oversleep host (sleeps (log w)));
      log := log w ++ [{| at_ms := now w; action := Sleep ms |}] |}).

(** [this.helpers.httpRequestWithAuthentication]; the rejection is returned
    as data, for the caller's [try]/[catch]. *)
Definition httpRequestWithAuthentication (options : Request) : M Outcome := λ w,
  let n := fetches (log w) in
  (Ok (http host n options),
   {| now := now w + Z.of_N (latency host n);
      log := log w ++ [{| at_ms := now w; action := Fetch options |}] |}).

(** The client, from the request on: the credentials are resolved.  In the
    [catch] the error is built from the extracted message as it is. *)
Definition cospecApiRequest (method : Method) (path : string)
    (body : option obj) : M obj :=
  let base := strip_trailing_slash (baseUrl host) in
  let options := {| method := method; url := base +:+ path;
                    headers := [("X-Cospec-Source", "n8n")];
                    body := body |} in
  outcome ← httpRequestWithAuthentication options;
  match outcome with
  | Responds response => mret response
  | Rejects error =>
      message ← lift (extractApiErrorMessage error);
      throw (NodeOperationError message None)
  end.

(** [env[key] = value] on the object literal [{}], for a string [value].
    The literal inherits the accessor [__proto__] from [Object.prototype]:
    assigning a string to it calls the setter, which ignores a value that is
    neither an object nor [null], and no property is created.  Every other
    name becomes an own property. *)
Definition assign_env (env : obj) (key value : string) : obj :=
  if String.eqb key "__proto__" then env else <[key := VStr value]> env.

Definition appendEnvVars (body : obj) (itemIndex : nat) : obj :=
  match env (parameters host itemIndex) with
  | None => body
  | Some values =>
      let env : obj :=
        foldl (λ env entry, assign_env env entry.1 entry.2) ∅ values in
      <["env" := VObj env]> body
  end.

Definition buildRequestBody (itemIndex : nat) : obj :=
  let p := parameters host itemIndex in
  let body : obj :=
    {[ "repo" := VStr (repo p); "prompt" := VStr (prompt p);
       "template" := VStr (template p); "model" := VStr (model p) ]} in
  let body := if truthy (VStr (branch p))
              then <["branch" := VStr (branch p)]> body else body in
  let body := if bool_decide (0 < size (guardrails p))%nat
              then <["guardrails" := VObj (VNum <$> guardrails p)]> body
              else body in
  appendEnvVars body itemIndex.

Definition getTimeoutSeconds (itemIndex : nat) : Z :=
  match guardrails (parameters host itemIndex) !! "timeoutSeconds" with
  | Some n => if truthy (VNum n) then n else DEFAULT_TIMEOUT_SECONDS
  | None => DEFAULT_TIMEOUT_SECONDS
  end.

(** The template literal of the timeout error.  An integer prints in
    decimal, as a JavaScript number does below 10^21. *)
Definition timeout_message (runId : value) (timeoutSeconds : Z) : string :=
  "Run " +:+ template_str runId +:+ " did not complete within "
    +:+ pretty timeoutSeconds +:+ "s timeout".

(** The body of the polling loop: [None] when the loop goes on, [Some r]
    when it returns [r]. *)
Definition poll_body (runId : value) : M (option obj) :=
  _ ← sleep POLL_INTERVAL_MS;
  run ← cospecApiRequest GET ("/v1/runs/" +:+ template_str runId) None;
  if TERMINAL_STATUSES_has (field run "status")
  then r ← lift (flattenRunOutput run); mret (Some r)
  else mret None.

(** [while (Date.now() < deadline) { ... } throw ...] *)
Equations? poll_loop (runId : value) (timeoutSeconds : Z) (itemIndex : nat)
    (deadline : Z) (w : World) : result obj * World
    by wf (Z.to_nat (deadline - now w)) lt :=
  poll_loop runId timeoutSeconds itemIndex deadline w
    with decide (now w < deadline) := {
    | right _ =>
        (Throw (NodeOperationError
                  (VStr (timeout_message runId timeoutSeconds))
                  (Some itemIndex)), w)
    | left _ with Equations.Prop.Logic.inspect (poll_body runId w) := {
      | exist _ (Ok (Some r), w') _ => (Ok r, w')
      | exist _ (Ok None, w') Hbody =>
          poll_loop runId timeoutSeconds itemIndex deadline w'
      | exist _ (Throw e, w') _ => (Throw e, w') } }.
Proof.
  (* every iteration sleeps, so the clock moves on by the poll interval *)
  clear poll_loop.
  assert (Hreq : ∀ m p b w0, now w0 ≤ now (cospecApiRequest m p b w0).2).
  { intros. unfold cospecApiRequest, httpRequestWithAuthentication,
      mbind, M_bind, lift, throw, mret, M_ret.
    destruct (http host _ _); [simpl; lia|].
    destruct (extractApiErrorMessage error); simpl; lia. }
  unfold poll_body, mbind at 1, M_bind at 1 in Hbody.
  remember (sleep POLL_INTERVAL_MS w) as s eqn:Hs. unfold sleep in Hs. subst s.
  unfold mbind, M_bind in Hbody.
  match type of Hbody with context [cospecApiRequest ?m ?p ?b ?w0] =>
    specialize (Hreq m p b w0); destruct (cospecApiRequest m p b w0) as [[run|e] w1]
  end; [|congruence].
  simpl in Hreq.
  assert (w' = w1) as ->.
  { destruct (TERMINAL_STATUSES_has _); unfold lift, mret, M_ret in Hbody;
      [destruct (flattenRunOutput run)|]; congruence. }
  unfold POLL_INTERVAL_MS in Hreq. lia.
Qed.

Definition pollUntilComplete (runId : value) (timeoutSeconds : Z)
    (itemIndex : nat) : M obj := λ w,
  let deadline := now w + timeoutSeconds * 1000 + TIMEOUT_BUFFER_MS in
  poll_loop runId timeoutSeconds itemIndex deadline w.

Definition createRun (itemIndex : nat) : M obj :=
  let body := buildRequestBody itemIndex in
  response ← cospecApiRequest POST "/v1/runs" (Some body);
  let shouldWait := waitForCompletion (parameters host itemIndex) in
  if negb shouldWait then mret response else
  let timeoutSeconds := getTimeoutSeconds itemIndex in
  pollUntilComplete (field response "id") timeoutSeconds itemIndex.

Definition getRun (itemIndex : nat) : M obj :=
  let runId := runId (parameters host itemIndex) in
  run ← cospecApiRequest GET ("/v1/runs/" +:+ runId) None;
  lift (flattenRunOutput run).

End Node.

(** ** Cospec.node.ts: the node's [execute] method *)

(** What [execute] reads from its context besides the host: the number of
    input items, each item's [operation] parameter, the [continueOnFail]
    setting, and the runtime's message text for a [TypeError] raised while
    item [i] is processed (an item raises at most one error). *)
Record Execution : Type := {
  inputItems : nat;
  operation : nat → string;
  continueOnFail : bool;
  typeErrorText : nat → string;
}.

(** [INodeExecutionData]: [{ json, pairedItem: { item } }]. *)
Record ExecutionData : Type := {
  json : obj;
  pairedItem : nat;
}.

Section Execute.
Context (host : Host) (ex : Execution).

(** [(error as Error).message] of the error caught for item [i]: the
    message the error was built with (taking the host's class to keep it),
    or the runtime's text for a [TypeError]. *)
Definition error_message (i : nat) (error : exn) : value :=
  match error with
  | TypeError => VStr (typeErrorText ex i)
  | NodeOperationError message _ => message
  end.

(** The [catch] block without continue-on-fail.  A [NodeOperationError]
    carries a [context] object: its [itemIndex] is set and the error thrown
    again; any other error is wrapped in a new [NodeOperationError] with the
    same message. *)
Definition rethrow_for_item (i : nat) (error : exn) : exn :=
  match error with
  | NodeOperationError message _ => NodeOperationError message (Some i)
  | TypeError => NodeOperationError (error_message i error) (Some i)
  end.

(** [operation === 'Create Run' ? createRun(i) : getRun(i)] *)
Definition run_operation (i : nat) : M obj :=
  if String.eqb (operation ex i) "Create Run"
  then createRun host i else getRun host i.

(** The [for] loop from item [i] on, with [remaining] items to go. *)
Fixpoint execute_loop (i remaining : nat) (returnData : list ExecutionData)
    : M (list ExecutionData) :=
  match remaining with
  | O => mret returnData
  | S remaining' => λ w,
      match run_operation i w with
      | (Ok result, w') =>
          execute_loop (S i) remaining'
            (returnData ++ [{| json := result; pairedItem := i |}]) w'
      | (Throw error, w') =>
          if continueOnFail ex then
            execute_loop (S i) remaining'
              (returnData ++ [{| json := {[ "error" := error_message i error ]};
                                 pairedItem := i |}]) w'
          else (Throw (rethrow_for_item i error), w')
      end
  end.

Definition execute : M (list (list ExecutionData)) :=
  returnData ← execute_loop 0 (inputItems ex) [];
  mret [returnData].

End Execute.

(** ** CospecTrigger.node.ts: webhook lifecycle and payload handler *)

(** [a === b] on values that do not share an object: primitives compare by
    value, an array or object is never equal to one from elsewhere. *)
Definition strict_eq (a b : value) : bool :=
  match a, b with
  | VUndefined, VUndefined => true
  | VNull, VNull => true
  | VBool x, VBool y => bool_decide (x = y)
  | VNum x, VNum y => bool_decide (x = y)
  | VStr x, VStr y => bool_decide (x = y)
  | _, _ => false
  end.

(** [Array.prototype.some] with a predicate that may raise. *)
Fixpoint array_some (p : value → result bool) (l : list value) : result bool :=
  match l with
  | [] => Ok false
  | x :: l' =>
      b ← p x;
      if (b : bool) then Ok true else array_some p l'
  end.

(** The trigger's context: the API host, the node's webhook URL and its
    [events] parameter, and the runtime's message text for a [TypeError]. *)
Record TriggerHost : Type := {
  api : Host;
  webhookUrl : string;
  events : list string;
  triggerTypeErrorText : string;
}.

(** The world together with the workflow's static data for the node. *)
Record HookState : Type := {
  world : World;
  staticData : obj;
}.

Section Trigger.
Context (cls : ErrorClass) (th : TriggerHost).

Definition checkExists (s : HookState) : result bool * HookState :=
  let webhookData := staticData s in
  if negb (truthy (field webhookData "webhookId")) then (Ok false, s) else
  let cleared w := {| world := w; staticData := delete "webhookId" webhookData |} in
  match cospecApiRequest (api th) GET "/v1/webhooks" None (world s) with
  | (Ok response, w') =>
      let found :=
        match field response "data" with
        | VArr webhooks =>
            array_some
              (λ wh, id ← get wh "id";
                     Ok (strict_eq id (field webhookData "webhookId")))
              webhooks
        | _ => Throw TypeError
        end in
      match found with
      | Ok true => (Ok true, {| world := w'; staticData := webhookData |})
      | Ok false => (Ok false, cleared w')
      | Throw _ => (Ok false, cleared w')
      end
  | (Throw _, w') => (Ok false, cleared w')
  end.

(** [(error as Error).message] in the [catch]: the caught error is the
    client's, an instance of the host's class showing what the class made of
    the extracted message, or a [TypeError], of the extractor or of the
    class's constructor. *)
Definition createWebhook (s : HookState) : result bool * HookState :=
  let body : obj :=
    {[ "url" := VStr (webhookUrl th);
       "events" := VArr (VStr <$> events th) ]} in
  match cospecApiRequest (api th) POST "/v1/webhooks" (Some body) (world s) with
  | (Ok response, w') =>
      (Ok true,
       {| world := w';
          staticData := <["webhookId" := field response "id"]> (staticData s) |})
  | (Throw error, w') =>
      let message :=
        VStr (default (triggerTypeErrorText th) (shown_message cls error)) in
      let apiMessage := if truthy message then message
                        else VStr "Unknown error" in
      (Throw (NodeOperationError
                (VStr ("Failed to register webhook: "
                         +:+ template_str apiMessage)) None),
       {| world := w'; staticData := staticData s |})
  end.

Definition deleteWebhook (s : HookState) : result bool * HookState :=
  let webhookData := staticData s in
  let webhookId := field webhookData "webhookId" in
  if truthy webhookId then
    let '(_, w') :=
      cospecApiRequest (api th) DELETE
        ("/v1/webhooks/" +:+ template_str webhookId) None (world s) in
    (Ok true, {| world := w'; staticData := delete "webhookId" webhookData |})
  else (Ok true, s).

End Trigger.

(** The characters of a string, as one-character strings. *)
Fixpoint string_chars (s : string) : list value :=
  match s with
  | EmptyString => []
  | String c s' => VStr (String c EmptyString) :: string_chars s'
  end.

(** [Object.entries(v)] of a value that is neither [null] nor [undefined],
    as a record: an object's own fields, the elements of an array or the
    characters of a string under their indices, nothing for a number or a
    boolean. *)
Definition own_entries (v : value) : obj :=
  match v with
  | VObj o => o
  | VArr l => list_to_map (imap (λ i x, (pretty i, x)) l)
  | VStr s => list_to_map (imap (λ i x, (pretty i, x)) (string_chars s))
  | _ => ∅
  end.

Definition buildTriggerOutput (body : obj) : result obj :=
  let run := field body "run" in
  let base : obj :=
    {[ "event" := field body "event"; "timestamp" := field body "timestamp" ]} in
  if negb (truthy run) then Ok base else
  flat ← flattenRunOutput (own_entries run);
  Ok (flat ∪ base).

(** ** Notions the properties are stated with *)

(** The error extractor, as the specification words its priority order.
    Within a body: the [detail] string, else the [message] string of the
    first entry of a non-empty [errors] array, else the [title] string. *)
Definition body_message (data : value) : option string :=
  match get_opt data "detail" with
  | VStr detail => Some detail
  | _ =>
      let title :=
        match get_opt data "title" with
        | VStr title => Some title
        | _ => None
        end in
      match get_opt data "errors" with
      | VArr (first :: _) =>
          match get_opt first "message" with
          | VStr message => Some message
          | _ => title
          end
      | _ => title
      end
  end.

(** A body yields a message when the string so chosen is not empty. *)
Definition yields (data : value) : option string :=
  match body_message data with
  | Some "" => None
  | m => m
  end.

Definition context_body (error : value) : value :=
  get_opt (get_opt error "context") "data".
Definition cause_body (error : value) : value :=
  get_opt (get_opt (get_opt error "cause") "response") "data".

(** The body on the context data, else the body under the transport cause,
    else a [description] string, else the error's own message, else the
    literal. *)
Definition chosen_message (error : value) : value :=
  match yields (context_body error) with
  | Some m => VStr m
  | None =>
      match yields (cause_body error) with
      | Some m => VStr m
      | None =>
          match get_opt error "description" with
          | VStr description => VStr description
          | _ =>
              let message := get_opt error "message" in
              if truthy message then message else VStr "Unknown API error"
          end
      end
  end.

(** The first entry of the body's [errors] array, if it has one, is neither
    [null] nor [undefined]. *)
Definition errors_head_ok (data : value) : Prop :=
  ∀ first rest, get_opt data "errors" = VArr (first :: rest) →
    nullish first = false.

(** The normaliser's vocabulary.  [has_type t o]: the output record [o] is
    tagged [t].  [first_of_type outputs t o]: [o] is the first element of
    [outputs] tagged [t].  [none_of_type outputs t]: no element is. *)
Definition has_type (t : string) (o : value) : Prop :=
  get_opt o "type" = VStr t.

Definition first_of_type (outputs : list value) (t : string) (o : value) : Prop :=
  ∃ i : nat, outputs !! i = Some o ∧ has_type t o
    ∧ ∀ (j : nat) o', (j < i)%nat → outputs !! j = Some o' → ¬ has_type t o'.

Definition none_of_type (outputs : list value) (t : string) : Prop :=
  ∀ o, o ∈ outputs → ¬ has_type t o.

(** The run's [outputs], read as a list: the array it holds, the empty list
    when the field is absent, [null] or [undefined]. *)
Definition run_outputs (run : obj) (outputs : list value) : Prop :=
  run !! "outputs" = Some (VArr outputs)
  ∨ (outputs = []
     ∧ (run !! "outputs" = None ∨ run !! "outputs" = Some VNull
        ∨ run !! "outputs" = Some VUndefined)).

Definition no_null_entry (outputs : list value) : Prop :=
  Forall (λ o, nullish o = false) outputs.

(** [{url, title, number}] and [{name}] of an output record. *)
Definition link_of (o : value) : value :=
  VObj {[ "url" := get_opt o "url"; "title" := get_opt o "title";
          "number" := get_opt o "number" ]}.
Definition branch_of (o : value) : value :=
  VObj {[ "name" := get_opt o "name" ]}.

(** The top-level record without the internal fields. *)
Definition strip_internal (run : obj) : obj :=
  filter (λ kv, kv.1 ∉ INTERNAL_FIELDS) run.

(** The four derived fields, as [flattenRunOutput] computes them from the
    value of [outputs]. *)
Definition derived (outputs : value) : result (value * value * value * value) :=
  pr ← firstOfType outputs "pr";
  issue ← firstOfType outputs "issue";
  branch ← firstOfType outputs "branch";
  text ← firstOfType outputs "text";
  prOut ← (if truthy pr then
             url ← get pr "url"; title ← get pr "title";
             number ← get pr "number";
             Ok (VObj {[ "url" := url; "title" := title; "number" := number ]})
           else Ok VNull);
  issueOut ← (if truthy issue then
                url ← get issue "url"; title ← get issue "title";
                number ← get issue "number";
                Ok (VObj {[ "url" := url; "title" := title;
                            "number" := number ]})
              else Ok VNull);
  branchOut ← (if truthy branch then
                 name ← get branch "name"; Ok (VObj {[ "name" := name ]})
               else Ok VNull);
  Ok (prOut, issueOut, branchOut, coalesce (get_opt text "content") VNull).

Definition with_derived (d : value * value * value * value) (o : obj) : obj :=
  <["summary" := d.2]>
    (<["branch" := d.1.2]> (<["issue" := d.1.1.2]> (<["pr" := d.1.1.1]> o))).

(** The first element tagged [t], [undefined] when there is none. *)
Definition find_type (t : string) (outputs : list value) : value :=
  default VUndefined
    (List.find (λ o, strict_eq_str (get_opt o "type") t) outputs).

(** Sample runs: the specification's example, a run whose own [branch] field
    collides with a derived name, and a run with a malformed [outputs]. *)
Definition example_outputs : list value :=
  [ VObj {[ "type" := VStr "pr"; "url" := VStr "u"; "title" := VStr "t";
            "number" := VNum 1 ]};
    VObj {[ "type" := VStr "text"; "content" := VStr "s" ]} ].

Definition example_run : obj :=
  {[ "id" := VStr "run_1"; "status" := VStr "completed";
     "templateId" := VStr "tpl_9"; "callbackUrl" := VStr "https://cb";
     "outputs" := VArr example_outputs ]}.

Definition example_out : obj :=
  {[ "id" := VStr "run_1"; "status" := VStr "completed";
     "outputs" := VArr example_outputs;
     "pr" := VObj {[ "url" := VStr "u"; "title" := VStr "t";
                     "number" := VNum 1 ]};
     "issue" := VNull; "branch" := VNull; "summary" := VStr "s" ]}.

Definition branch_run : obj :=
  {[ "id" := VStr "run_2"; "branch" := VStr "main" ]}.

Definition malformed_run : obj :=
  {[ "id" := VStr "run_3"; "outputs" := VStr "none" ]}.

(** Sample errors: a validation failure as [NodeApiError] carries it, and a
    body whose [errors] array starts with [null]. *)
Definition validation_error : value :=
  VObj {[ "message" := VStr "Bad request - please check your parameters";
          "context" := VObj {[ "data" := VObj
            {[ "title" := VStr "Y";
               "errors" := VArr [VObj {[ "message" := VStr "X" ]}] ]} ]} ]}.

Definition null_entry_error : value :=
  VObj {[ "message" := VStr "Bad request - please check your parameters";
          "context" := VObj {[ "data" := VObj
            {[ "title" := VStr "Y"; "errors" := VArr [VNull] ]} ]} ]}.

(** The poller's vocabulary, for a given host. *)
Section PollerNotions.
Context (host : Host).

(** The request a poll of run [runId] issues. *)
Definition poll_request (runId : value) : Request :=
  {| method := GET;
     url := strip_trailing_slash (baseUrl host) +:+ "/v1/runs/"
              +:+ template_str runId;
     headers := [("X-Cospec-Source", "n8n")];
     body := None |}.

(** The request [createRun] issues for item [itemIndex]. *)
Definition create_request (itemIndex : nat) : Request :=
  {| method := POST;
     url := strip_trailing_slash (baseUrl host) +:+ "/v1/runs";
     headers := [("X-Cospec-Source", "n8n")];
     body := Some (buildRequestBody host itemIndex) |}.

(** The request [getRun] issues for item [itemIndex]. *)
Definition get_request (itemIndex : nat) : Request :=
  {| method := GET;
     url := strip_trailing_slash (baseUrl host) +:+ "/v1/runs/"
              +:+ runId (parameters host itemIndex);
     headers := [("X-Cospec-Source", "n8n")];
     body := None |}.

(** What the API client raises when a request is rejected with [error]: a
    [NodeOperationError] carrying the extracted message. *)
Definition api_failure (error : value) : exn :=
  match extractApiErrorMessage error with
  | Ok message => NodeOperationError message None
  | Throw e => e
  end.

(** The time [k] polls take, the first being the host's sleep number [s] and
    request number [r]: each sleeps the poll interval plus the overshoot,
    then waits for the response. *)
Fixpoint elapsed (s r k : nat) : Z :=
  match k with
  | O => 0
  | S k' =>
      POLL_INTERVAL_MS + Z.of_N (oversleep host s) + Z.of_N (latency host r)
        + elapsed (S s) (S r) k'
  end.

(** What [k] polls do: sleep, fetch, sleep, fetch, ... *)
Definition poll_actions (runId : value) (k : nat) : list Action :=
  mjoin (replicate k [Sleep 5000; Fetch (poll_request runId)]).

(** The world after one poll. *)
Definition after_poll (runId : value) (w : World) : World :=
  let woke := now w + POLL_INTERVAL_MS
              + Z.of_N (oversleep host (sleeps (log w))) in
  {| now := woke + Z.of_N (latency host (fetches (log w)));
     log := log w ++ [ {| at_ms := now w; action := Sleep POLL_INTERVAL_MS |};
                       {| at_ms := woke;
                          action := Fetch (poll_request runId) |} ] |}.

End PollerNotions.

(** A run's status is in the terminal set. *)
Definition terminal (run : obj) : Prop :=
  ∃ s, field run "status" = VStr s
       ∧ s ∈ [ "completed"; "failed"; "cancelled" ].

(** Sample hosts: a service that reports the scripted statuses on successive
    requests (and ["running"] afterwards), and one whose third request is
    rejected. *)
Definition run_with (status : string) : obj :=
  {[ "id" := VStr "run_1"; "status" := VStr status;
     "templateId" := VStr "tpl_9"; "outputs" := VArr example_outputs ]}.

Definition sample_params (wait : bool) : Params :=
  {| repo := "octo/repo"; prompt := "Fix the bug"; template := "node";
     model := "sonnet"; branch := ""; waitForCompletion := wait;
     guardrails := {[ "timeoutSeconds" := 30 ]}; env := None;
     runId := "run_1" |}.

Definition scripted_host (wait : bool) (statuses : list string) : Host :=
  {| baseUrl := "https://api.cospec.io/";
     parameters := λ _, sample_params wait;
     http := λ n _, Responds (run_with (nth n statuses "running"));
     latency := λ _, 120%N;
     oversleep := λ _, 3%N |}.

Definition rejecting_host : Host :=
  {| baseUrl := "https://api.cospec.io";
     parameters := λ _, sample_params true;
     http := λ n _, if bool_decide (n < 2)%nat
                    then Responds (run_with "running")
                    else Rejects validation_error;
     latency := λ _, 120%N;
     oversleep := λ _, 3%N |}.

Definition start : World := {| now := 1700000000000; log := [] |}.

(** The deadline [Date.now() + timeoutSeconds * 1000 + TIMEOUT_BUFFER_MS] is
    computed within the integers a JavaScript number holds exactly, those
    below 2^53 in magnitude; it is then the integer of the model, and
    [timeoutSeconds] prints in decimal. *)
Definition exact_deadline (w : World) (timeoutSeconds : Z) : Prop :=
  0 ≤ now w ∧ now w + Z.abs timeoutSeconds * 1000 + 60000 < 2 ^ 53.

(** [s.toUpperCase()] on ASCII letters, and [s.includes(code)]. *)
Definition upper_ascii (c : Ascii.ascii) : Ascii.ascii :=
  let n := Ascii.nat_of_ascii c in
  if bool_decide (97 ≤ n ≤ 122)%nat then Ascii.ascii_of_nat (n - 32) else c.

Fixpoint toUpperCase (s : string) : string :=
  match s with
  | EmptyString => EmptyString
  | String c s' => String (upper_ascii c) (toUpperCase s')
  end.

Fixpoint includes (s code : string) : bool :=
  String.prefix code s
  || match s with
     | EmptyString => false
     | String _ s' => includes s' code
     end.

(** A sample error class, after the host library's: a string message that
    contains the Node error code [EPERM], in any case, is replaced by the
    description of that code, any other string is kept, and the constructor
    raises on a message that is not a string. *)
Definition node_error_class : ErrorClass :=
  {| build := λ message,
       match message with
       | VStr s =>
           Some (if includes (toUpperCase s) "EPERM"
                 then "Operation not permitted, make sure you have the right permissions"
                 else s)
       | _ => None
       end |}.

(** More sample data: a service that rejects every request, and parameters
    with a branch, guardrails and environment variables. *)
Definition down_host : Host :=
  {| baseUrl := "https://api.cospec.io";
     parameters := λ _, sample_params true;
     http := λ _ _, Rejects validation_error;
     latency := λ _, 120%N;
     oversleep := λ _, 3%N |}.

Definition full_params : Params :=
  {| repo := "octo/repo"; prompt := "Fix the bug"; template := "node";
     model := "opus"; branch := "dev"; waitForCompletion := false;
     guardrails := {[ "maxTurns" := 10 ]};
     env := Some [("A", "1"); ("B", "2"); ("A", "3")];
     runId := "run_1" |}.

Definition full_host : Host :=
  {| baseUrl := "https://api.cospec.io/";
     parameters := λ _, full_params;
     http := λ _ _, Responds (run_with "queued");
     latency := λ _, 120%N;
     oversleep := λ _, 3%N |}.

(** Environment variables with a repeated key and an entry named
    [__proto__]. *)
Definition proto_host : Host :=
  {| baseUrl := "https://api.cospec.io/";
     parameters := λ _,
       {| repo := "octo/repo"; prompt := "Fix the bug"; template := "node";
          model := "opus"; branch := ""; waitForCompletion := false;
          guardrails := ∅;
          env := Some [("A", "1"); ("__proto__", "x"); ("B", "2");
                       ("A", "3")];
          runId := "run_1" |};
     http := λ _ _, Responds (run_with "queued");
     latency := λ _, 120%N;
     oversleep := λ _, 3%N |}.

(** An error whose context body has a [detail] next to an [errors] array
    starting with [null], and whose cause body starts with [null] too. *)
Definition detailed_error : value :=
  VObj {[ "message" := VStr "Bad request - please check your parameters";
          "context" := VObj {[ "data" := VObj
            {[ "detail" := VStr "repo is required";
               "errors" := VArr [VNull]; "title" := VStr "Y" ]} ]};
          "cause" := VObj {[ "response" := VObj {[ "data" := VObj
            {[ "errors" := VArr [VNull] ]} ]} ]} ]}.

(** The world each item of an execution starts in: item [0] in the initial
    world, item [j + 1] in the world item [j] left. *)
Fixpoint item_world (host : Host) (ex : Execution) (w : World) (j : nat)
    : World :=
  match j with
  | O => w
  | S j' => (run_operation host ex j' (item_world host ex w j')).2
  end.

(** What item [j] contributes to the output when failures are collected. *)
Definition item_json (host : Host) (ex : Execution) (w : World) (j : nat)
    : obj :=
  match (run_operation host ex j (item_world host ex w j)).1 with
  | Ok result => result
  | Throw error => {[ "error" := error_message ex j error ]}
  end.

(** The requests of the webhook lifecycle. *)
Section TriggerNotions.
Context (th : TriggerHost).

Definition list_request : Request :=
  {| method := GET;
     url := strip_trailing_slash (baseUrl (api th)) +:+ "/v1/webhooks";
     headers := [("X-Cospec-Source", "n8n")]; body := None |}.

Definition register_request : Request :=
  {| method := POST;
     url := strip_trailing_slash (baseUrl (api th)) +:+ "/v1/webhooks";
     headers := [("X-Cospec-Source", "n8n")];
     body := Some {[ "url" := VStr (webhookUrl th);
                     "events" := VArr (VStr <$> events th) ]} |}.

Definition unregister_request (webhookId : value) : Request :=
  {| method := DELETE;
     url := strip_trailing_slash (baseUrl (api th)) +:+ "/v1/webhooks/"
              +:+ template_str webhookId;
     headers := [("X-Cospec-Source", "n8n")]; body := None |}.

End TriggerNotions.

(** Sample trigger context: a service that lists two webhooks, registers
    [wh_2] and rejects deletions. *)
Definition webhook_listing : obj :=
  {[ "data" := VArr [ VObj {[ "id" := VStr "wh_1" ]};
                      VObj {[ "id" := VStr "wh_2" ]} ] ]}.

Definition sample_trigger : TriggerHost :=
  {| api :=
       {| baseUrl := "https://api.cospec.io";
          parameters := λ _, sample_params true;
          http := λ _ req,
            match method req with
            | GET => Responds webhook_listing
            | POST => Responds {[ "id" := VStr "wh_2" ]}
            | _ => Rejects validation_error
            end;
          latency := λ _, 120%N;
          oversleep := λ _, 3%N |};
     webhookUrl := "https://n8n.example/webhook/abc";
     events := ["run.completed"; "run.failed"];
     triggerTypeErrorText := "Cannot read properties of null" |}.

Definition fresh_hook : HookState := {| world := start; staticData := ∅ |}.

Definition sample_execution (continue : bool) : Execution :=
  {| inputItems := 2;
     operation := λ i, if bool_decide (i = 0%nat) then "Get Run"
                       else "Create Run";
     continueOnFail := continue;
     typeErrorText := λ _, "outputs.find is not a function" |}.

Example flatten_ex :
  flattenRunOutput
    {[ "id" := VStr "r1"; "templateId" := VStr "t";
       "outputs" := VArr [VObj {[ "type" := VStr "text"; "content" := VStr "s" ]}] ]}
  = Ok {[ "id" := VStr "r1";
          "outputs" := VArr [VObj {[ "type" := VStr "text"; "content" := VStr "s" ]}];
          "pr" := VNull; "issue" := VNull; "branch" := VNull;
          "summary" := VStr "s" ]}.
Proof. reflexivity. Qed.


(** ** The error extractor *)

Lemma get_ok v k : nullish v = false → get v k = Ok (get_opt v k).
Proof. by destruct v. Qed.

Lemma truthy_not_nullish v : truthy v = true → nullish v = false.
Proof. by destruct v. Qed.

Lemma truthy_VStr s : truthy (VStr s) = bool_decide (s ≠ "").
Proof.
  simpl. destruct (String.eqb_spec s ""); subst; simpl;
    by rewrite ?bool_decide_eq_true_2, ?bool_decide_eq_false_2 by naive_solver.
Qed.

(** On a body that is not [null]/[undefined] and whose first [errors] entry
    is not either, the code returns the string the specification names, or
    [undefined] when there is none. *)
Lemma extractFromBody_spec data :
  nullish data = false → errors_head_ok data →
  extractFromBody data =
    Ok (match body_message data with Some m => VStr m | None => VUndefined end).
Proof.
  intros Hdata Herr. unfold extractFromBody, body_message.
  rewrite !(get_ok data) by done. simpl.
  destruct (get_opt data "detail") eqn:Hdetail; simpl; try done.
  all: destruct (get_opt data "errors") as [| | | | |[|first rest]|] eqn:Herrors;
    simpl; try (by destruct (get_opt data "title")).
  all: rewrite (get_ok first) by eauto; simpl.
  all: destruct (get_opt first "message"); simpl; try done.
  all: by destruct (get_opt data "title").
Qed.

(** What a body contributes to [extractApiErrorMessage]: consulted only when
    truthy, used only when the extracted value is truthy. *)
Lemma extractFromBody_yields data :
  errors_head_ok data →
  ∃ v, (if truthy data then extractFromBody data else Ok VUndefined) = Ok v
       ∧ (truthy v = true → ∃ m, v = VStr m ∧ yields data = Some m)
       ∧ (truthy v = false → yields data = None).
Proof.
  intros Herr. destruct (truthy data) eqn:Ht.
  - rewrite extractFromBody_spec by auto using truthy_not_nullish.
    eexists; split; [done|]. unfold yields.
    destruct (body_message data) as [m|]; [|by split].
    rewrite truthy_VStr. split.
    + intros ?%bool_decide_eq_true. exists m. split; [done|]. by destruct m.
    + intros Hn%bool_decide_eq_false.
      destruct (decide (m = "")) as [->|]; [done | by destruct Hn].
  - exists VUndefined. split; [done|]. split; [done|]. intros _.
    unfold yields, body_message. by destruct data.
Qed.

(** C1 (as amended).  For every error other than [null]/[undefined] whose
    response bodies (on the context data and under the transport cause) do
    not have [null]/[undefined] as first [errors] entry, the extractor
    returns, without raising, the value chosen by the priority order: the
    non-empty message of the context body, else of the cause body (within a
    body the [detail] string, else the first error's [message] string, else
    the [title] string), else a [description] string, else the error's own
    message if truthy, else ["Unknown API error"].  That value is a string
    whenever the error's own message is a string or falsy. *)
Theorem extractApiErrorMessage_priority (error : value) :
  nullish error = false →
  errors_head_ok (context_body error) →
  errors_head_ok (cause_body error) →
  extractApiErrorMessage error = Ok (chosen_message error)
  ∧ (is_string (get_opt error "message") = true
     ∨ truthy (get_opt error "message") = false →
     ∃ s, chosen_message error = VStr s).
Proof.
  intros Herror Hcontext Hcause. split.
  - unfold extractApiErrorMessage, chosen_message.
    rewrite !(get_ok error) by done. simpl.
    fold (context_body error). fold (cause_body error).
    destruct (extractFromBody_yields _ Hcontext) as (v & -> & Hyes & Hno).
    simpl. destruct (truthy v).
    { by destruct Hyes as (m & -> & ->). }
    rewrite Hno by done.
    destruct (extractFromBody_yields _ Hcause) as (v' & -> & Hyes' & Hno').
    simpl. destruct (truthy v').
    { by destruct Hyes' as (m & -> & ->). }
    rewrite Hno' by done.
    by destruct (get_opt error "description").
  - intros Hmessage. unfold chosen_message.
    destruct (yields (context_body error)); [by eexists|].
    destruct (yields (cause_body error)); [by eexists|].
    destruct (get_opt error "description"); try by eexists.
    all: destruct Hmessage as [Hstring|Hfalsy]; [|rewrite Hfalsy; by eexists].
    all: destruct (get_opt error "message"); try done.
    all: destruct (truthy _); by eexists.
Qed.

Lemma extractApiErrorMessage_priority_witness :
  extractApiErrorMessage validation_error = Ok (VStr "X").
Proof.
  refine (proj1 (extractApiErrorMessage_priority validation_error _ _ _)).
  - reflexivity.
  - intros first rest H. vm_compute in H. injection H as <- _. reflexivity.
  - intros first rest H. vm_compute in H. discriminate H.
Defined.

(** C1 fails as stated: on a body whose [errors] array starts with [null]
    the extractor raises instead of returning a string. *)
Lemma extractApiErrorMessage_raises :
  extractApiErrorMessage null_entry_error = Throw TypeError
  ∧ ¬ ∃ s : string, extractApiErrorMessage null_entry_error = Ok (VStr s).
Proof.
  assert (H : extractApiErrorMessage null_entry_error = Throw TypeError)
    by reflexivity.
  split; [exact H|]. intros [s Hs]. rewrite H in Hs. discriminate Hs.
Qed.

(** ** The output normaliser *)

Lemma strip_internal_lookup run k :
  strip_internal run !! k = if decide (k ∈ INTERNAL_FIELDS) then None else run !! k.
Proof.
  unfold strip_internal. case_decide.
  - apply map_lookup_filter_None. right. intros x _ Hnot. by apply Hnot.
  - destruct (run !! k) eqn:Hk.
    + by apply map_lookup_filter_Some.
    + apply map_lookup_filter_None. by left.
Qed.

Lemma strip_internal_id run :
  (∀ k, k ∈ INTERNAL_FIELDS → run !! k = None) → strip_internal run = run.
Proof.
  intros H. apply map_filter_id. intros k x Hk ?. simpl in *.
  apply H in H0. congruence.
Qed.

Lemma with_derived_lookup d o k :
  with_derived d o !! k =
    if decide (k = "summary") then Some d.2
    else if decide (k = "branch") then Some d.1.2
    else if decide (k = "issue") then Some d.1.1.2
    else if decide (k = "pr") then Some d.1.1.1
    else o !! k.
Proof.
  unfold with_derived. rewrite !lookup_insert.
  repeat case_decide; congruence.
Qed.

(** [flattenRunOutput] is [derived] on the value of [outputs], laid over the
    stripped record. *)
Lemma flattenRunOutput_derived run :
  flattenRunOutput run =
    d ← derived (coalesce (field (strip_internal run) "outputs") (VArr []));
    Ok (with_derived d (strip_internal run)).
Proof.
  unfold flattenRunOutput, derived. fold (strip_internal run).
  generalize (coalesce (field (strip_internal run) "outputs") (VArr [])).
  intros outputs.
  destruct (firstOfType outputs "pr") as [pr|]; [simpl|done].
  destruct (firstOfType outputs "issue") as [issue|]; [simpl|done].
  destruct (firstOfType outputs "branch") as [branch|]; [simpl|done].
  destruct (firstOfType outputs "text") as [text|]; [simpl|done].
  destruct (truthy pr);
    [destruct (get pr "url"), (get pr "title"), (get pr "number")|];
    simpl; try done.
  all: destruct (truthy issue);
    [destruct (get issue "url"), (get issue "title"), (get issue "number")|];
    simpl; try done.
  all: destruct (truthy branch); [destruct (get branch "name")|];
    simpl; done.
Qed.

Lemma internal_field_iff k :
  k ∈ [ "callbackUrl"; "callbackStatus"; "cancelRequestedAt"; "templateId" ]
  ↔ k ∈ INTERNAL_FIELDS.
Proof.
  unfold INTERNAL_FIELDS.
  rewrite !elem_of_cons, elem_of_nil, !elem_of_union, !elem_of_singleton.
  tauto.
Qed.

Lemma flattenRunOutput_inv run out :
  flattenRunOutput run = Ok out →
  ∃ d, derived (coalesce (field (strip_internal run) "outputs") (VArr [])) = Ok d
       ∧ out = with_derived d (strip_internal run).
Proof.
  rewrite flattenRunOutput_derived.
  destruct (derived _) as [d|]; [|done]. intros [= <-]. by exists d.
Qed.

(** C5.  The internal field names [callbackUrl], [callbackStatus],
    [cancelRequestedAt] and [templateId] are never keys of the normaliser's
    output, whatever the input record holds. *)
Theorem flattenRunOutput_drops_internal (run out : obj) (k : string) :
  flattenRunOutput run = Ok out →
  k ∈ [ "callbackUrl"; "callbackStatus"; "cancelRequestedAt"; "templateId" ] →
  out !! k = None.
Proof.
  intros (d & _ & ->)%flattenRunOutput_inv Hk.
  rewrite with_derived_lookup, strip_internal_lookup.
  rewrite (decide_True (P := k ∈ INTERNAL_FIELDS)) by by apply internal_field_iff.
  apply list_elem_of_In in Hk. simpl in Hk.
  destruct Hk as [<-|[<-|[<-|[<-|[]]]]]; reflexivity.
Qed.

Lemma flattenRunOutput_drops_internal_witness :
  example_run !! "templateId" = Some (VStr "tpl_9")
  ∧ example_out !! "templateId" = None.
Proof.
  split; [reflexivity|].
  apply (flattenRunOutput_drops_internal example_run example_out "templateId").
  - reflexivity.
  - apply list_elem_of_In. simpl. tauto.
Defined.

(** C8 (as amended).  Every original top-level field other than the four
    internal ones and the four derived names [pr], [issue], [branch] and
    [summary] is in the normaliser's output with its original value; the
    four derived names are keys of the output and hold the derived values. *)
Theorem flattenRunOutput_preserves (run out : obj) :
  flattenRunOutput run = Ok out →
  (∀ k : string,
     k ∉ [ "callbackUrl"; "callbackStatus"; "cancelRequestedAt"; "templateId" ] →
     k ∉ [ "pr"; "issue"; "branch"; "summary" ] →
     out !! k = run !! k)
  ∧ (∀ k : string, k ∈ [ "pr"; "issue"; "branch"; "summary" ] →
       is_Some (out !! k)).
Proof.
  intros (d & _ & ->)%flattenRunOutput_inv. split.
  - intros k Hinternal Hderived.
    rewrite with_derived_lookup, strip_internal_lookup.
    rewrite internal_field_iff in Hinternal.
    rewrite (decide_False (P := k ∈ INTERNAL_FIELDS)) by done.
    rewrite !not_elem_of_cons in Hderived. destruct_and!.
    by rewrite !decide_False by done.
  - intros k Hk. rewrite with_derived_lookup.
    apply list_elem_of_In in Hk. simpl in Hk.
    destruct Hk as [<-|[<-|[<-|[<-|[]]]]]; by eexists.
Qed.

Lemma flattenRunOutput_preserves_witness :
  example_out !! "status" = example_run !! "status"
  ∧ is_Some (example_out !! "issue").
Proof.
  destruct (flattenRunOutput_preserves example_run example_out) as [H1 H2];
    [reflexivity|].
  split.
  - apply H1; intros H%list_elem_of_In; simpl in H;
      repeat destruct H as [H|H]; solve [discriminate H | destruct H].
  - apply H2. apply list_elem_of_In. simpl. tauto.
Defined.

(** C8 fails as stated: a top-level [branch] field of the raw run is not in
    the output with its original value; the derived [branch] replaces
    it. *)
Lemma flattenRunOutput_overwrites_branch :
  ∃ out, flattenRunOutput branch_run = Ok out
         ∧ branch_run !! "branch" = Some (VStr "main")
         ∧ out !! "branch" = Some VNull.
Proof. eexists. split; [reflexivity|]. split; reflexivity. Qed.

(** C9.  Normalising an already-normalised record does not fail and gives
    the record back unchanged: in particular its [pr], [issue], [branch] and
    [summary] are those of the first application. *)
Theorem flattenRunOutput_idempotent (run out : obj) :
  flattenRunOutput run = Ok out →
  flattenRunOutput out = Ok out.
Proof.
  intros (d & Hd & ->)%flattenRunOutput_inv.
  set (filtered := strip_internal run) in *.
  assert (Hstrip : strip_internal (with_derived d filtered)
                   = with_derived d filtered).
  { apply strip_internal_id. intros k Hk.
    rewrite with_derived_lookup. unfold filtered.
    rewrite strip_internal_lookup.
    rewrite (decide_True (P := k ∈ INTERNAL_FIELDS)) by done.
    apply internal_field_iff, list_elem_of_In in Hk. simpl in Hk.
    destruct Hk as [<-|[<-|[<-|[<-|[]]]]]; reflexivity. }
  rewrite flattenRunOutput_derived, Hstrip.
  assert (field (with_derived d filtered) "outputs" = field filtered "outputs")
    as ->.
  { unfold field. by rewrite with_derived_lookup. }
  rewrite Hd. simpl. f_equal. apply map_eq. intros k.
  rewrite !with_derived_lookup. by repeat case_decide.
Qed.

Lemma flattenRunOutput_idempotent_witness :
  flattenRunOutput example_out = Ok example_out.
Proof.
  apply (flattenRunOutput_idempotent example_run example_out). reflexivity.
Defined.

(** *** The scans over [outputs] *)

Lemma strict_eq_str_has_type o t :
  strict_eq_str (get_opt o "type") t = true ↔ has_type t o.
Proof.
  unfold has_type. destruct (get_opt o "type"); simpl; try done.
  rewrite bool_decide_eq_true. naive_solver.
Qed.

Lemma has_type_truthy t o : has_type t o → truthy o = true.
Proof. unfold has_type. by destruct o. Qed.

(** On a list without [null]/[undefined] entries the scan does not raise and
    is the pure search. *)
Lemma firstOfType_find t l :
  no_null_entry l → firstOfType (VArr l) t = Ok (find_type t l).
Proof.
  unfold find_type. simpl. induction 1 as [|o l Ho _ IH]; [done|].
  simpl. rewrite get_ok by done. simpl.
  by destruct (strict_eq_str (get_opt o "type") t).
Qed.

Lemma find_type_first l t o : first_of_type l t o → find_type t l = o.
Proof.
  unfold find_type. intros (i & Hi & Ho & Hbefore).
  revert i Hi Hbefore. induction l as [|x l IH]; intros i Hi Hbefore; [done|].
  simpl. destruct i as [|i]; simpl in Hi.
  - injection Hi as ->. apply strict_eq_str_has_type in Ho. by rewrite Ho.
  - destruct (strict_eq_str (get_opt x "type") t) eqn:Hx.
    + apply strict_eq_str_has_type in Hx.
      destruct (Hbefore 0%nat x); [lia|done|done].
    + apply (IH i Hi). intros j o' Hj Ho'. apply (Hbefore (S j) o'); [lia|done].
Qed.

Lemma find_type_none l t : none_of_type l t → find_type t l = VUndefined.
Proof.
  unfold find_type, none_of_type. induction l as [|x l IH]; intros Hnone; [done|].
  simpl. destruct (strict_eq_str (get_opt x "type") t) eqn:Hx.
  - apply strict_eq_str_has_type in Hx. destruct (Hnone x); [left|done].
  - apply IH. intros o Ho. apply Hnone. by right.
Qed.

(** The derived fields on a list without [null]/[undefined] entries. *)
Lemma derived_ok l :
  no_null_entry l →
  derived (VArr l) =
    Ok (let pr := find_type "pr" l in
        if truthy pr then link_of pr else VNull,
        let issue := find_type "issue" l in
        if truthy issue then link_of issue else VNull,
        let branch := find_type "branch" l in
        if truthy branch then branch_of branch else VNull,
        coalesce (get_opt (find_type "text" l) "content") VNull).
Proof.
  intros Hl. unfold derived. rewrite !firstOfType_find by done. simpl.
  destruct (truthy (find_type "pr" l)) eqn:Hpr;
    destruct (truthy (find_type "issue" l)) eqn:Hissue;
    destruct (truthy (find_type "branch" l)) eqn:Hbranch;
    repeat (rewrite get_ok by by apply truthy_not_nullish).
  all: reflexivity.
Qed.

Lemma run_outputs_coalesce run outputs :
  run_outputs run outputs →
  coalesce (field (strip_internal run) "outputs") (VArr []) = VArr outputs.
Proof.
  unfold field. rewrite strip_internal_lookup.
  rewrite decide_False by (by intros ?%internal_field_iff%list_elem_of_In;
    simpl in *; intuition discriminate).
  by intros [->|(-> & [->|[->| ->]])].
Qed.

(** C4.  For every raw run, with [outputs] a list of records (absent counts
    as empty), the normaliser returns an output whose [pr] and [issue] are
    [{url, title, number}] of the first [outputs] element tagged [pr], resp.
    [issue], whose [branch] is [{name}] of the first element tagged
    [branch], and whose [summary] is the content of the first element tagged
    [text]; each is [null] when no element has the tag ([summary] also when
    the text element has no content).  Later elements with the same tag are
    ignored. *)
Theorem flattenRunOutput_derived_fields (run : obj) (outputs : list value) :
  run_outputs run outputs →
  no_null_entry outputs →
  ∃ out, flattenRunOutput run = Ok out
    ∧ (∀ o, first_of_type outputs "pr" o → out !! "pr" = Some (link_of o))
    ∧ (none_of_type outputs "pr" → out !! "pr" = Some VNull)
    ∧ (∀ o, first_of_type outputs "issue" o →
         out !! "issue" = Some (link_of o))
    ∧ (none_of_type outputs "issue" → out !! "issue" = Some VNull)
    ∧ (∀ o, first_of_type outputs "branch" o →
         out !! "branch" = Some (branch_of o))
    ∧ (none_of_type outputs "branch" → out !! "branch" = Some VNull)
    ∧ (∀ o, first_of_type outputs "text" o →
         out !! "summary" = Some (coalesce (get_opt o "content") VNull))
    ∧ (none_of_type outputs "text" → out !! "summary" = Some VNull).
Proof.
  intros Hrun Hnull.
  rewrite flattenRunOutput_derived, (run_outputs_coalesce _ _ Hrun),
    derived_ok by done.
  eexists. split; [reflexivity|]. rewrite !with_derived_lookup. simpl.
  repeat split.
  all: try (intros o Ho; rewrite (find_type_first _ _ _ Ho);
            destruct Ho as (i & _ & Ho & _);
            try rewrite (has_type_truthy _ _ Ho); done).
  all: intros Hnone; by rewrite (find_type_none _ _ Hnone).
Qed.

Lemma flattenRunOutput_derived_fields_witness :
  ∃ out, flattenRunOutput example_run = Ok out
    ∧ out !! "pr" = Some (VObj {[ "url" := VStr "u"; "title" := VStr "t";
                                  "number" := VNum 1 ]})
    ∧ out !! "issue" = Some VNull
    ∧ out !! "branch" = Some VNull
    ∧ out !! "summary" = Some (VStr "s").
Proof.
  destruct (flattenRunOutput_derived_fields example_run example_outputs)
    as (out & Hout & Hpr & _ & _ & Hissue & _ & Hbranch & Htext & _).
  - left. reflexivity.
  - repeat constructor.
  - assert (Hnone : ∀ t, t ≠ "pr" → t ≠ "text" → none_of_type example_outputs t).
    { intros t ? ? o Ho%list_elem_of_In [= Ht]. simpl in Ho.
      destruct Ho as [<-|[<-|[]]]; vm_compute in Ht; congruence. }
    exists out. split; [exact Hout|]. split; [|split; [|split]].
    + rewrite (Hpr (VObj {[ "type" := VStr "pr"; "url" := VStr "u";
                            "title" := VStr "t"; "number" := VNum 1 ]}));
        [reflexivity|].
      exists 0%nat. split; [reflexivity|]. split; [reflexivity|]. lia.
    + apply Hissue, Hnone; discriminate.
    + apply Hbranch, Hnone; discriminate.
    + rewrite (Htext (VObj {[ "type" := VStr "text"; "content" := VStr "s" ]}));
        [reflexivity|].
      exists 1%nat. split; [reflexivity|]. split; [reflexivity|].
      intros j o' Hj Ho'. destruct j as [|j]; [|lia].
      injection Ho' as <-. intros Ht. vm_compute in Ht. discriminate Ht.
Defined.

(** C7 (as amended).  The normaliser is a pure function that returns a
    result without raising for every input record whose [outputs] field is
    absent, [null], [undefined], or a list with no [null]/[undefined] entry
    (the entries need not be typed records). *)
Theorem flattenRunOutput_total (run : obj) (outputs : list value) :
  run_outputs run outputs →
  no_null_entry outputs →
  ∃ out, flattenRunOutput run = Ok out.
Proof.
  intros Hrun Hnull.
  rewrite flattenRunOutput_derived, (run_outputs_coalesce _ _ Hrun),
    derived_ok by done.
  by eexists.
Qed.

Lemma flattenRunOutput_total_witness :
  ∃ out, flattenRunOutput {[ "id" := VStr "run_4";
                             "outputs" := VArr [VNum 7; VStr "x"] ]} = Ok out.
Proof.
  apply (flattenRunOutput_total _ [VNum 7; VStr "x"]).
  - left. reflexivity.
  - repeat constructor.
Defined.

(** C7 fails as stated: an [outputs] that is not a list makes the normaliser
    raise. *)
Lemma flattenRunOutput_raises :
  flattenRunOutput malformed_run = Throw TypeError
  ∧ ¬ ∃ out, flattenRunOutput malformed_run = Ok out.
Proof.
  assert (H : flattenRunOutput malformed_run = Throw TypeError) by reflexivity.
  split; [exact H|]. intros [out Hout]. rewrite H in Hout. discriminate Hout.
Qed.

(** ** The API client and the poller *)



Section Poller.
Context (host : Host).

Lemma sleeps_snoc l e :
  sleeps (l ++ [e]) = (sleeps l + if is_sleep e then 1 else 0)%nat.
Proof.
  unfold sleeps. rewrite List.filter_app, length_app. simpl.
  by destruct (is_sleep e).
Qed.

Lemma fetches_snoc l e :
  fetches (l ++ [e]) = (fetches l + if is_fetch e then 1 else 0)%nat.
Proof.
  unfold fetches. rewrite List.filter_app, length_app. simpl.
  by destruct (is_fetch e).
Qed.

(** One request: the host's answer to request number [fetches (log w)],
    a rejection turned into the client's error; the clock moves on by the
    latency and the request is logged. *)
Lemma cospecApiRequest_eq method path body w :
  cospecApiRequest host method path body w =
    let req := {| method := method;
                  url := strip_trailing_slash (baseUrl host) +:+ path;
                  headers := [("X-Cospec-Source", "n8n")];
                  body := body |} in
    (match http host (fetches (log w)) req with
     | Responds response => Ok response
     | Rejects error => Throw (api_failure error)
     end,
     {| now := now w + Z.of_N (latency host (fetches (log w)));
        log := log w ++ [{| at_ms := now w; action := Fetch req |}] |}).
Proof.
  unfold cospecApiRequest, httpRequestWithAuthentication, api_failure,
    mbind, M_bind, mret, M_ret, lift, throw. simpl.
  destruct (http host _ _); [done|].
  by destruct (extractApiErrorMessage error).
Qed.

Lemma poll_body_eq runId w :
  poll_body host runId w =
    (match http host (fetches (log w)) (poll_request host runId) with
     | Responds run =>
         if TERMINAL_STATUSES_has (field run "status")
         then match flattenRunOutput run with
              | Ok r => Ok (Some r)
              | Throw e => Throw e
              end
         else Ok None
     | Rejects error => Throw (api_failure error)
     end,
     after_poll host runId w).
Proof.
  unfold poll_body, mbind at 1, M_bind at 1, sleep.
  unfold mbind, M_bind. rewrite cospecApiRequest_eq. simpl.
  rewrite fetches_snoc. simpl. rewrite Nat.add_0_r.
  unfold after_poll, poll_request. rewrite <- app_assoc. simpl.
  destruct (http host _ _) as [run|error]; [|done].
  destruct (TERMINAL_STATUSES_has _); [|done].
  unfold lift, mret, M_ret. by destruct (flattenRunOutput run).
Qed.

Lemma poll_loop_eq runId timeoutSeconds itemIndex deadline w :
  poll_loop host runId timeoutSeconds itemIndex deadline w =
    if decide (now w < deadline) then
      match poll_body host runId w with
      | (Ok (Some r), w') => (Ok r, w')
      | (Ok None, w') =>
          poll_loop host runId timeoutSeconds itemIndex deadline w'
      | (Throw e, w') => (Throw e, w')
      end
    else
      (Throw (NodeOperationError
                (VStr (timeout_message runId timeoutSeconds))
                (Some itemIndex)), w).
Proof.
  rewrite poll_loop_equation_1. unfold poll_loop_unfold_clause_1.
  destruct (decide (now w < deadline)); [|done].
  destruct (Equations.Prop.Logic.inspect (poll_body host runId w))
    as [[[[r|]|e] w'] Hbody]; simpl; by rewrite Hbody.
Qed.

Lemma TERMINAL_STATUSES_has_terminal run :
  TERMINAL_STATUSES_has (field run "status") = true ↔ terminal run.
Proof.
  unfold terminal, TERMINAL_STATUSES_has, TERMINAL_STATUSES.
  destruct (field run "status") as [| | | |s| |]; try (split; [done|]);
    try by intros (? & [=] & _).
  rewrite bool_decide_eq_true.
  rewrite !elem_of_union, !elem_of_singleton. split.
  - intros H. exists s. split; [done|].
    rewrite !elem_of_cons, elem_of_nil. tauto.
  - intros (s' & [= <-] & H). revert H.
    rewrite !elem_of_cons, elem_of_nil. tauto.
Qed.

Lemma poll_loop_continue runId timeoutSeconds itemIndex deadline w run :
  now w < deadline →
  http host (fetches (log w)) (poll_request host runId) = Responds run →
  ¬ terminal run →
  poll_loop host runId timeoutSeconds itemIndex deadline w =
    poll_loop host runId timeoutSeconds itemIndex deadline
      (after_poll host runId w).
Proof.
  intros Hnow Hrun Hterm. rewrite poll_loop_eq at 1.
  rewrite decide_True by done. rewrite poll_body_eq, Hrun.
  destruct (TERMINAL_STATUSES_has _) eqn:Hhas; [|done].
  by apply TERMINAL_STATUSES_has_terminal in Hhas.
Qed.

Lemma poll_loop_return runId timeoutSeconds itemIndex deadline w run :
  now w < deadline →
  http host (fetches (log w)) (poll_request host runId) = Responds run →
  terminal run →
  poll_loop host runId timeoutSeconds itemIndex deadline w =
    (flattenRunOutput run, after_poll host runId w).
Proof.
  intros Hnow Hrun Hterm%TERMINAL_STATUSES_has_terminal.
  rewrite poll_loop_eq, decide_True by done.
  rewrite poll_body_eq, Hrun, Hterm.
  by destruct (flattenRunOutput run).
Qed.

Lemma poll_loop_reject runId timeoutSeconds itemIndex deadline w error :
  now w < deadline →
  http host (fetches (log w)) (poll_request host runId) = Rejects error →
  poll_loop host runId timeoutSeconds itemIndex deadline w =
    (Throw (api_failure error), after_poll host runId w).
Proof.
  intros Hnow Herror.
  rewrite poll_loop_eq, decide_True by done.
  by rewrite poll_body_eq, Herror.
Qed.

Lemma elapsed_nonneg s r k : 0 ≤ elapsed host s r k.
Proof.
  revert s r. induction k as [|k IH]; intros s r; simpl; [done|].
  specialize (IH (S s) (S r)). unfold POLL_INTERVAL_MS. lia.
Qed.

Lemma elapsed_lower s r k : Z.of_nat k * 5000 ≤ elapsed host s r k.
Proof.
  revert s r. induction k as [|k IH]; intros s r; simpl elapsed; [done|].
  specialize (IH (S s) (S r)). unfold POLL_INTERVAL_MS. lia.
Qed.

Lemma after_poll_sleeps runId w :
  sleeps (log (after_poll host runId w)) = S (sleeps (log w)).
Proof.
  unfold after_poll. simpl.
  change [?a; ?b] with ([a] ++ [b]). rewrite app_assoc.
  rewrite !sleeps_snoc. simpl. lia.
Qed.

Lemma after_poll_fetches runId w :
  fetches (log (after_poll host runId w)) = S (fetches (log w)).
Proof.
  unfold after_poll. simpl.
  change [?a; ?b] with ([a] ++ [b]). rewrite app_assoc.
  rewrite !fetches_snoc. simpl. lia.
Qed.

(** While the responses are non-terminal and the deadline is ahead, [k]
    polls go by: the loop is where it would be had it started [k] polls
    later. *)
Lemma poll_loop_skip runId timeoutSeconds itemIndex deadline k : ∀ w,
  (k = 0%nat ∨ now w + elapsed host (sleeps (log w)) (fetches (log w)) (k - 1)
               < deadline) →
  (∀ i, (i < k)%nat →
     ∃ r, http host (fetches (log w) + i) (poll_request host runId)
          = Responds r ∧ ¬ terminal r) →
  ∃ w', poll_loop host runId timeoutSeconds itemIndex deadline w =
          poll_loop host runId timeoutSeconds itemIndex deadline w'
    ∧ now w' = now w + elapsed host (sleeps (log w)) (fetches (log w)) k
    ∧ sleeps (log w') = (sleeps (log w) + k)%nat
    ∧ fetches (log w') = (fetches (log w) + k)%nat
    ∧ ∃ new, log w' = log w ++ new
             ∧ action <$> new = poll_actions host runId k.
Proof.
  induction k as [|k IH]; intros w Htime Hresp.
  { exists w. simpl. rewrite Z.add_0_r, !Nat.add_0_r.
    repeat split; try done. exists []. by rewrite app_nil_r. }
  destruct Htime as [|Htime]; [done|].
  replace (S k - 1)%nat with k in Htime by lia.
  destruct (Hresp 0%nat) as (r & Hr & Hterm); [lia|].
  rewrite Nat.add_0_r in Hr.
  assert (now w < deadline).
  { pose proof (elapsed_nonneg (sleeps (log w)) (fetches (log w)) k). lia. }
  destruct (IH (after_poll host runId w)) as (w' & Hloop & Hnow & Hs & Hf & new & Hlog & Hnew).
  - destruct k as [|k]; [by left|right].
    rewrite after_poll_sleeps, after_poll_fetches.
    replace (S k - 1)%nat with k by lia.
    simpl in Htime. unfold after_poll. simpl. lia.
  - intros i Hi. rewrite after_poll_fetches.
    destruct (Hresp (S i)) as (r' & Hr' & Hterm'); [lia|].
    replace (S (fetches (log w)) + i)%nat with (fetches (log w) + S i)%nat by lia.
    eauto.
  - exists w'. rewrite (poll_loop_continue _ _ _ _ _ r) by done.
    split; [done|]. rewrite after_poll_sleeps, after_poll_fetches in *.
    split; [|split; [lia|split; [lia|]]].
    + rewrite Hnow. unfold after_poll. simpl. lia.
    + exists (drop (length (log w)) (log (after_poll host runId w)) ++ new).
      unfold after_poll in *. simpl in *. rewrite drop_app_length. split.
      * by rewrite Hlog, <- app_assoc.
      * unfold poll_actions in *. rewrite fmap_app, Hnew. reflexivity.
Qed.

Lemma elapsed_mono s r k : elapsed host s r k ≤ elapsed host s r (S k).
Proof.
  revert s r. induction k as [|k IH]; intros s r.
  - simpl. unfold POLL_INTERVAL_MS. lia.
  - specialize (IH (S s) (S r)). simpl in *. lia.
Qed.

Lemma poll_actions_snoc runId k :
  poll_actions host runId (S k) =
    poll_actions host runId k ++ [Sleep 5000; Fetch (poll_request host runId)].
Proof.
  unfold poll_actions. rewrite replicate_S_end, join_app. reflexivity.
Qed.

(** The polls up to and including poll number [k], when the [k] polls before
    it see non-terminal runs and poll [k] starts before the deadline: the
    loop takes its decision at poll [k], in the world [after_poll] leaves. *)
Lemma poll_loop_reach runId timeoutSeconds itemIndex deadline k w :
  now w + elapsed host (sleeps (log w)) (fetches (log w)) k < deadline →
  (∀ i, (i < k)%nat →
     ∃ r, http host (fetches (log w) + i) (poll_request host runId)
          = Responds r ∧ ¬ terminal r) →
  ∃ w1, poll_loop host runId timeoutSeconds itemIndex deadline w =
          poll_loop host runId timeoutSeconds itemIndex deadline w1
    ∧ now w1 < deadline
    ∧ fetches (log w1) = (fetches (log w) + k)%nat
    ∧ now w + Z.of_nat (S k) * 5000 ≤ now (after_poll host runId w1)
    ∧ ∃ new, log (after_poll host runId w1) = log w ++ new
             ∧ action <$> new = poll_actions host runId (S k).
Proof.
  intros Htime Hresp.
  destruct (poll_loop_skip runId timeoutSeconds itemIndex deadline k w)
    as (w1 & Hloop & Hnow & _ & Hf & new & Hlog & Hnew); [|done|].
  { destruct k as [|k]; [by left|right].
    replace (S k - 1)%nat with k by lia.
    pose proof (elapsed_mono (sleeps (log w)) (fetches (log w)) k). lia. }
  exists w1. split; [done|]. split; [lia|]. split; [done|]. split.
  - pose proof (elapsed_lower (sleeps (log w)) (fetches (log w)) k).
    unfold after_poll, POLL_INTERVAL_MS. simpl. lia.
  - exists (new ++ drop (length (log w1)) (log (after_poll host runId w1))).
    unfold after_poll. simpl. rewrite drop_app_length, Hlog, <- app_assoc.
    split; [done|]. by rewrite fmap_app, Hnew, poll_actions_snoc.
Qed.



End Poller.

(** C3.  The poller sleeps the fixed 5 s interval before each fetch, goes on
    while the fetched status is not one of [completed], [failed],
    [cancelled], and at the first fetch with such a status returns the
    normalised run: when [k] non-terminal fetches are followed by a terminal
    one and that poll starts before the deadline, the result is the
    normaliser's result on that run, after exactly [k + 1] sleep-then-fetch
    rounds and at least [(k + 1) * 5000] ms.  With statuses
    [["running"; "running"; "completed"]] this is 3 fetches. *)
Theorem pollUntilComplete_returns_first_terminal (host : Host) (runId : value)
    (timeoutSeconds : Z) (itemIndex : nat) (w : World) (k : nat) (run : obj) :
  elapsed host (sleeps (log w)) (fetches (log w)) k
    < timeoutSeconds * 1000 + 60000 →
  (∀ i, (i < k)%nat →
     ∃ r, http host (fetches (log w) + i) (poll_request host runId)
          = Responds r ∧ ¬ terminal r) →
  http host (fetches (log w) + k) (poll_request host runId) = Responds run →
  terminal run →
  ∃ w', pollUntilComplete host runId timeoutSeconds itemIndex w
        = (flattenRunOutput run, w')
    ∧ (∃ new, log w' = log w ++ new
              ∧ action <$> new = poll_actions host runId (S k))
    ∧ now w + Z.of_nat (S k) * 5000 ≤ now w'.
Proof.
  intros Htime Hresp Hrun Hterm. unfold pollUntilComplete, TIMEOUT_BUFFER_MS.
  destruct (poll_loop_reach host runId timeoutSeconds itemIndex
              (now w + timeoutSeconds * 1000 + 60000) k w)
    as (w1 & -> & Hnow & Hf & Hlater & Hlog); [lia|done|].
  exists (after_poll host runId w1). rewrite <- Hf in Hrun.
  by rewrite (poll_loop_return _ _ _ _ _ _ run).
Qed.

(** C6.  A failed GET during polling is not caught by the poller: when [k]
    non-terminal fetches are followed by a rejected one, the poll ends at
    once with the error the API client raised (a [NodeOperationError] with
    the extracted message), having issued exactly [k + 1] requests, the
    rejected one last; the failed request is not retried. *)
Theorem pollUntilComplete_propagates_failure (host : Host) (runId : value)
    (timeoutSeconds : Z) (itemIndex : nat) (w : World) (k : nat)
    (error : value) :
  elapsed host (sleeps (log w)) (fetches (log w)) k
    < timeoutSeconds * 1000 + 60000 →
  (∀ i, (i < k)%nat →
     ∃ r, http host (fetches (log w) + i) (poll_request host runId)
          = Responds r ∧ ¬ terminal r) →
  http host (fetches (log w) + k) (poll_request host runId) = Rejects error →
  ∃ w', pollUntilComplete host runId timeoutSeconds itemIndex w
        = (Throw (api_failure error), w')
    ∧ (∃ new, log w' = log w ++ new
              ∧ action <$> new = poll_actions host runId (S k))
    ∧ (∀ message, extractApiErrorMessage error = Ok message →
         api_failure error = NodeOperationError message None).
Proof.
  intros Htime Hresp Herror. unfold pollUntilComplete, TIMEOUT_BUFFER_MS.
  destruct (poll_loop_reach host runId timeoutSeconds itemIndex
              (now w + timeoutSeconds * 1000 + 60000) k w)
    as (w1 & -> & Hnow & Hf & Hlater & Hlog); [lia|done|].
  exists (after_poll host runId w1). rewrite <- Hf in Herror.
  rewrite (poll_loop_reject _ _ _ _ _ _ error) by done.
  split; [done|]. split; [done|].
  intros message Hmessage. unfold api_failure. by rewrite Hmessage.
Qed.




Lemma pollUntilComplete_returns_first_terminal_witness :
  ∃ w', pollUntilComplete
          (scripted_host true ["running"; "running"; "completed"])
          (VStr "run_1") 30 0 start
        = (flattenRunOutput (run_with "completed"), w')
    ∧ (∃ new, log w' = log start ++ new
              ∧ length (List.filter is_fetch new) = 3%nat
              ∧ length (List.filter is_sleep new) = 3%nat)
    ∧ now start + 3 * 5000 ≤ now w'.
Proof.
  destruct (pollUntilComplete_returns_first_terminal
              (scripted_host true ["running"; "running"; "completed"])
              (VStr "run_1") 30 0 start 2 (run_with "completed"))
    as (w' & Hpoll & (new & Hlog & Hnew) & Hnow).
  - reflexivity.
  - intros i Hi. exists (run_with "running"). split.
    + destruct i as [|[|i]]; [reflexivity|reflexivity|lia].
    + intros (s & Hs & Hin). vm_compute in Hs. injection Hs as <-.
      apply list_elem_of_In in Hin. simpl in Hin.
      intuition discriminate.
  - reflexivity.
  - exists "completed". split; [reflexivity|].
    apply list_elem_of_In. simpl. tauto.
  - exists w'. split; [exact Hpoll|]. split; [|exact Hnow].
    exists new. split; [exact Hlog|].
    destruct new as [|[? a1] [|[? a2] [|[? a3] [|[? a4] [|[? a5] [|[? a6] [|]]]]]]];
      try discriminate Hnew.
    injection Hnew as -> -> -> -> -> ->. split; reflexivity.
Defined.

Lemma pollUntilComplete_propagates_failure_witness :
  ∃ w', pollUntilComplete rejecting_host (VStr "run_1") 30 0 start
        = (Throw (NodeOperationError (VStr "X") None), w')
    ∧ ∃ new, log w' = log start ++ new
             ∧ action <$> new = poll_actions rejecting_host (VStr "run_1") 3.
Proof.
  destruct (pollUntilComplete_propagates_failure rejecting_host
              (VStr "run_1") 30 0 start 2 validation_error)
    as (w' & Hpoll & Hlog & _).
  - reflexivity.
  - intros i Hi. exists (run_with "running"). split.
    + destruct i as [|[|i]]; [reflexivity|reflexivity|lia].
    + intros (s & Hs & Hin). vm_compute in Hs. injection Hs as <-.
      apply list_elem_of_In in Hin. simpl in Hin.
      intuition discriminate.
  - reflexivity.
  - exists w'. split; [exact Hpoll | exact Hlog].
Defined.

(** ** Create Run and Get Run *)

(** C10.  With wait-for-completion disabled, Create Run returns the POST's
    response as it is, after that one request: nothing is normalised, so
    internal fields stay and no [pr], [issue], [branch] or [summary] is
    added.  With it enabled the result is the poller's, for the response's
    [id]; Get Run returns the normaliser's result on the fetched run. *)
Theorem createRun_without_wait_is_raw (host : Host) (itemIndex : nat)
    (w : World) (response : obj) :
  http host (fetches (log w)) (create_request host itemIndex)
    = Responds response →
  let posted :=
    {| now := now w + Z.of_N (latency host (fetches (log w)));
       log := log w ++ [{| at_ms := now w;
                           action := Fetch (create_request host itemIndex) |}]
    |} in
  (waitForCompletion (parameters host itemIndex) = false →
   createRun host itemIndex w = (Ok response, posted))
  ∧ (waitForCompletion (parameters host itemIndex) = true →
     createRun host itemIndex w =
       pollUntilComplete host (field response "id")
         (getTimeoutSeconds host itemIndex) itemIndex posted)
  ∧ (∀ run, http host (fetches (log w)) (get_request host itemIndex)
            = Responds run →
       (getRun host itemIndex w).1 = flattenRunOutput run).
Proof.
  intros Hpost posted.
  assert (Hcreate : cospecApiRequest host POST "/v1/runs"
                      (Some (buildRequestBody host itemIndex)) w
                    = (Ok response, posted)).
  { rewrite cospecApiRequest_eq. simpl.
    fold (create_request host itemIndex). by rewrite Hpost. }
  split; [|split].
  - intros Hwait. unfold createRun, mbind, M_bind.
    by rewrite Hcreate, Hwait.
  - intros Hwait. unfold createRun, mbind, M_bind.
    by rewrite Hcreate, Hwait.
  - intros run Hget. unfold getRun, mbind, M_bind.
    rewrite cospecApiRequest_eq. simpl.
    fold (get_request host itemIndex). by rewrite Hget.
Qed.

Lemma createRun_without_wait_is_raw_witness :
  (createRun (scripted_host false []) 0 start).1 = Ok (run_with "running")
  ∧ run_with "running" !! "templateId" = Some (VStr "tpl_9")
  ∧ run_with "running" !! "summary" = None.
Proof.
  split; [|split; reflexivity].
  destruct (createRun_without_wait_is_raw (scripted_host false []) 0 start
              (run_with "running")) as (Hraw & _ & _).
  - reflexivity.
  - rewrite Hraw; reflexivity.
Defined.

(** * Further properties of the code *)

(** ** What can be raised *)

Lemma get_throws v k e : get v k = Throw e → e = TypeError.
Proof. destruct v; simpl; congruence. Qed.

Lemma extractFromBody_throws data e :
  extractFromBody data = Throw e → e = TypeError.
Proof.
  unfold extractFromBody.
  destruct (get data "detail") as [detail|] eqn:Hdetail;
    [|intros [= <-]; by apply get_throws in Hdetail].
  simpl. destruct (is_string detail); [done|].
  destruct (get data "errors") as [errors|] eqn:Herrors;
    [|intros [= <-]; by apply get_throws in Herrors].
  simpl.
  assert (Htitle : (title ← get data "title";
                    if is_string title then Ok title else Ok VUndefined)
                   = Throw e → e = TypeError).
  { destruct (get data "title") as [title|] eqn:Ht;
      [simpl; by destruct (is_string title)|].
    intros [= <-]. by apply get_throws in Ht. }
  destruct errors as [| | | | |[|first rest]|]; simpl; try done.
  destruct (get first "message") as [message|] eqn:Hm;
    [|intros [= <-]; by apply get_throws in Hm].
  simpl. by destruct (is_string message).
Qed.

Lemma extractApiErrorMessage_throws error e :
  extractApiErrorMessage error = Throw e → e = TypeError.
Proof.
  unfold extractApiErrorMessage.
  destruct (get error "context") as [context|] eqn:Hc;
    [|intros [= <-]; by apply get_throws in Hc].
  simpl.
  destruct (if truthy (get_opt context "data")
            then extractFromBody (get_opt context "data") else Ok VUndefined)
    as [fromContext|] eqn:Hfc.
  2:{ intros [= <-]. destruct (truthy (get_opt context "data")); [|done].
      by apply extractFromBody_throws in Hfc. }
  simpl. destruct (truthy fromContext); [done|].
  destruct (get error "cause") as [cause|] eqn:Hcause;
    [|intros [= <-]; by apply get_throws in Hcause].
  simpl.
  destruct (if truthy (get_opt (get_opt cause "response") "data")
            then extractFromBody (get_opt (get_opt cause "response") "data")
            else Ok VUndefined) as [fromCause|] eqn:Hfca.
  2:{ intros [= <-].
      destruct (truthy (get_opt (get_opt cause "response") "data")); [|done].
      by apply extractFromBody_throws in Hfca. }
  simpl. destruct (truthy fromCause); [done|].
  destruct (get error "description") as [description|] eqn:Hd;
    [|intros [= <-]; by apply get_throws in Hd].
  simpl. destruct (is_string description); [done|].
  destruct (get error "message") as [message|] eqn:Hm;
    [done|intros [= <-]; by apply get_throws in Hm].
Qed.

Lemma api_failure_no_index error message i :
  api_failure error ≠ NodeOperationError message (Some i).
Proof.
  unfold api_failure.
  destruct (extractApiErrorMessage error) as [m|e] eqn:He; [done|].
  by apply extractApiErrorMessage_throws in He as ->.
Qed.

Lemma array_find_throws p l e :
  (∀ o e', p o = Throw e' → e' = TypeError) →
  array_find p l = Throw e → e = TypeError.
Proof.
  intros Hp. induction l as [|o l IH]; simpl; [done|].
  destruct (p o) as [[]|] eqn:Ho; simpl; [done|done|].
  intros [= <-]. by apply Hp in Ho.
Qed.

Lemma firstOfType_throws outputs t e :
  firstOfType outputs t = Throw e → e = TypeError.
Proof.
  destruct outputs; simpl; try congruence.
  apply array_find_throws. intros o e'.
  destruct (get o "type") eqn:Ho; simpl; [done|].
  intros [= <-]. by apply get_throws in Ho.
Qed.

Lemma derived_throws outputs e : derived outputs = Throw e → e = TypeError.
Proof.
  unfold derived.
  destruct (firstOfType outputs "pr") as [pr|] eqn:H1;
    [|intros [= <-]; by apply firstOfType_throws in H1].
  destruct (firstOfType outputs "issue") as [issue|] eqn:H2;
    [|intros [= <-]; by apply firstOfType_throws in H2].
  destruct (firstOfType outputs "branch") as [branch|] eqn:H3;
    [|intros [= <-]; by apply firstOfType_throws in H3].
  destruct (firstOfType outputs "text") as [text|] eqn:H4;
    [|intros [= <-]; by apply firstOfType_throws in H4].
  simpl.
  destruct (truthy pr) eqn:Hpr;
    [repeat (rewrite (get_ok pr) by (by apply truthy_not_nullish); simpl)|];
    simpl.
  all: destruct (truthy issue) eqn:Hissue;
    [repeat (rewrite (get_ok issue) by (by apply truthy_not_nullish); simpl)|];
    simpl.
  all: destruct (truthy branch) eqn:Hbranch;
    [repeat (rewrite (get_ok branch) by (by apply truthy_not_nullish); simpl)|];
    simpl.
  all: done.
Qed.

Lemma flattenRunOutput_throws run e :
  flattenRunOutput run = Throw e → e = TypeError.
Proof.
  rewrite flattenRunOutput_derived.
  destruct (derived _) as [d|e'] eqn:Hd; [done|].
  intros [= <-]. by apply derived_throws in Hd.
Qed.

Lemma flattenRunOutput_status run out :
  flattenRunOutput run = Ok out → field out "status" = field run "status".
Proof.
  intros (d & _ & ->)%flattenRunOutput_inv. unfold field.
  by rewrite with_derived_lookup, strip_internal_lookup.
Qed.

Lemma terminal_status run run' :
  field run' "status" = field run "status" → terminal run → terminal run'.
Proof. intros H (s & Hs & Hin). exists s. by rewrite H. Qed.

(** ** The poller, against any host *)

Section PollerShape.
Context (host : Host).

(** How the loop ends, whatever the host answers: after [k] sleep-then-fetch
    rounds, each started before the deadline, with the normaliser's result on
    a terminal run, the client's error for a rejected request, or the timeout
    error once the deadline is reached. *)
Lemma poll_loop_shape runId timeoutSeconds itemIndex deadline : ∀ w,
  ∃ (k : nat) new r w',
    poll_loop host runId timeoutSeconds itemIndex deadline w = (r, w')
    ∧ log w' = log w ++ new
    ∧ action <$> new = poll_actions host runId k
    ∧ (∀ e, e ∈ new → is_sleep e = true → at_ms e < deadline)
    ∧ now w + Z.of_nat k * 5000 ≤ now w'
    ∧ (k = 0%nat ↔ ¬ now w < deadline)
    ∧ ((0 < k)%nat → now w + (Z.of_nat k - 1) * 5000 < deadline)
    ∧ ((∃ run, (0 < k)%nat
          ∧ http host (fetches (log w) + k - 1) (poll_request host runId)
            = Responds run
          ∧ terminal run ∧ r = flattenRunOutput run)
       ∨ (∃ error, (0 < k)%nat
            ∧ http host (fetches (log w) + k - 1) (poll_request host runId)
              = Rejects error
            ∧ r = Throw (api_failure error))
       ∨ (r = Throw (NodeOperationError
                       (VStr (timeout_message runId timeoutSeconds))
                       (Some itemIndex))
          ∧ deadline ≤ now w')).
Proof.
  intros w.
  remember (Z.to_nat (deadline - now w)) as n eqn:Hn. revert w Hn.
  induction n as [n IH] using lt_wf_ind. intros w ->.
  destruct (decide (now w < deadline)) as [Hnow|Hnow].
  2:{ exists 0%nat, [], (Throw (NodeOperationError
                               (VStr (timeout_message runId timeoutSeconds))
                               (Some itemIndex))), w.
      rewrite poll_loop_eq, decide_False, app_nil_r by done.
      repeat split; try done; try lia.
      - by intros e ?%elem_of_nil.
      - right. right. split; [done|lia]. }
  pose (round := drop (length (log w)) (log (after_poll host runId w))).
  assert (Hround : log (after_poll host runId w) = log w ++ round).
  { unfold round, after_poll. simpl. by rewrite drop_app_length. }
  assert (Hact : action <$> round = poll_actions host runId 1).
  { unfold round, after_poll. simpl. by rewrite drop_app_length. }
  assert (Hsl : ∀ e, e ∈ round → is_sleep e = true → at_ms e < deadline).
  { unfold round, after_poll. simpl. rewrite drop_app_length.
    intros e He Hs. apply elem_of_cons in He as [->|He]; [done|].
    apply elem_of_cons in He as [->|He]; [done|]. by apply elem_of_nil in He. }
  assert (Hlater : now w + 5000 ≤ now (after_poll host runId w)).
  { unfold after_poll, POLL_INTERVAL_MS. simpl. lia. }
  destruct (http host (fetches (log w)) (poll_request host runId))
    as [run|error] eqn:Hhttp.
  - destruct (TERMINAL_STATUSES_has (field run "status")) eqn:Hterm.
    + apply TERMINAL_STATUSES_has_terminal in Hterm.
      exists 1%nat, round, (flattenRunOutput run), (after_poll host runId w).
      rewrite (poll_loop_return _ _ _ _ _ _ run) by done.
      repeat split; try done; try lia.
      left. exists run. rewrite Nat.add_sub. repeat split; try done. lia.
    + assert (Hnot : ¬ terminal run).
      { intros Ht%TERMINAL_STATUSES_has_terminal. congruence. }
      rewrite (poll_loop_continue _ _ _ _ _ _ run) by done.
      assert (Hless : (Z.to_nat (deadline - now (after_poll host runId w))
                       < Z.to_nat (deadline - now w))%nat) by lia.
      destruct (IH _ Hless (after_poll host runId w) eq_refl)
        as (k & new & r & w' & Hloop & Hlog & Hnew & Hsleeps & Htime & Hzero
            & Hlast & Hend).
      exists (S k), (round ++ new), r, w'.
      split; [done|]. split; [by rewrite Hlog, Hround, app_assoc|].
      split.
      { rewrite fmap_app, Hact, Hnew. reflexivity. }
      split.
      { intros e [He|He]%elem_of_app; [by apply Hsl|by apply Hsleeps]. }
      split; [lia|]. split; [split; [done|tauto]|]. split.
      { intros _. destruct k as [|k]; [lia|].
        specialize (Hlast ltac:(lia)). lia. }
      rewrite after_poll_fetches in Hend.
      destruct Hend as [(run' & Hk & Hrun' & ?)|[(error & Hk & Herr & ?)|?]].
      * left. exists run'. split; [lia|].
        replace (fetches (log w) + S k - 1)%nat
          with (S (fetches (log w)) + k - 1)%nat by lia. done.
      * right. left. exists error. split; [lia|].
        replace (fetches (log w) + S k - 1)%nat
          with (S (fetches (log w)) + k - 1)%nat by lia. done.
      * right. by right.
  - exists 1%nat, round, (Throw (api_failure error)), (after_poll host runId w).
    rewrite (poll_loop_reject _ _ _ _ _ _ error) by done.
    repeat split; try done; try lia.
    right. left. exists error. rewrite Nat.add_sub. repeat split; try done. lia.
Qed.

End PollerShape.

Lemma poll_actions_counts (host : Host) runId k : ∀ new : list Event,
  action <$> new = poll_actions host runId k →
  sleeps new = k ∧ fetches new = k.
Proof.
  unfold sleeps, fetches.
  induction k as [|k IH]; intros new Hnew.
  { by destruct new. }
  destruct new as [|[t1 a1] [|[t2 a2] new]]; try done.
  unfold poll_actions in Hnew. simpl in Hnew.
  injection Hnew as -> -> Hnew. destruct (IH new Hnew) as [Hs Hf].
  unfold is_sleep, is_fetch in *. simpl. by rewrite Hs, Hf.
Qed.

Lemma sleeps_app l1 l2 : sleeps (l1 ++ l2) = (sleeps l1 + sleeps l2)%nat.
Proof. unfold sleeps. by rewrite List.filter_app, length_app. Qed.

Lemma fetches_app l1 l2 : fetches (l1 ++ l2) = (fetches l1 + fetches l2)%nat.
Proof. unfold fetches. by rewrite List.filter_app, length_app. Qed.

(** X1.  When [timeoutSeconds * 1000 + 60000] is not positive the deadline
    is already reached: the poller raises the timeout error at once, without
    sleeping or fetching, and leaves the world as it was. *)
Theorem pollUntilComplete_expired_deadline (host : Host) (runId : value)
    (timeoutSeconds : Z) (itemIndex : nat) (w : World) :
  timeoutSeconds * 1000 + 60000 ≤ 0 →
  pollUntilComplete host runId timeoutSeconds itemIndex w
  = (Throw (NodeOperationError
              (VStr ("Run " +:+ template_str runId
                       +:+ " did not complete within "
                       +:+ pretty timeoutSeconds +:+ "s timeout"))
              (Some itemIndex)), w).
Proof.
  intros Hle. unfold pollUntilComplete, TIMEOUT_BUFFER_MS.
  rewrite poll_loop_eq, decide_False by lia. reflexivity.
Qed.

Lemma pollUntilComplete_expired_deadline_witness :
  pollUntilComplete (scripted_host true ["completed"]) (VStr "run_1")
    (-60) 0 start
  = (Throw (NodeOperationError
              (VStr "Run run_1 did not complete within -60s timeout")
              (Some 0%nat)), start).
Proof.
  apply (pollUntilComplete_expired_deadline
           (scripted_host true ["completed"]) (VStr "run_1") (-60) 0 start).
  lia.
Defined.

(** X2.  Whatever the service answers, a poll consists of [k] rounds of
    sleeping 5000 ms and then issuing the same GET, appended to the log in
    that order.  Every sleep starts before the deadline, the last round
    starts less than [timeoutSeconds * 1000 + 60000] ms after the start (so
    [k] is bounded), there is at least one round when the deadline is ahead,
    and [k] rounds take at least [k * 5000] ms. *)
Theorem pollUntilComplete_rounds (host : Host) (runId : value)
    (timeoutSeconds : Z) (itemIndex : nat) (w : World) :
  ∃ (k : nat) new,
    let w' := (pollUntilComplete host runId timeoutSeconds itemIndex w).2 in
    log w' = log w ++ new
    ∧ action <$> new = poll_actions host runId k
    ∧ (∀ e, e ∈ new → is_sleep e = true →
         at_ms e < now w + timeoutSeconds * 1000 + 60000)
    ∧ (k = 0%nat ↔ timeoutSeconds * 1000 + 60000 ≤ 0)
    ∧ ((0 < k)%nat → (Z.of_nat k - 1) * 5000 < timeoutSeconds * 1000 + 60000)
    ∧ now w + Z.of_nat k * 5000 ≤ now w'.
Proof.
  unfold pollUntilComplete, TIMEOUT_BUFFER_MS.
  destruct (poll_loop_shape host runId timeoutSeconds itemIndex
              (now w + timeoutSeconds * 1000 + 60000) w)
    as (k & new & r & w' & -> & Hlog & Hnew & Hsleeps & Htime & Hzero
        & Hlast & _).
  exists k, new. simpl.
  split; [done|]. split; [done|]. split; [done|]. split; [|split; [|lia]].
  - split; intros Hk; [apply Hzero in Hk; lia | apply Hzero; lia].
  - intros Hk. specialize (Hlast Hk). lia.
Qed.

(** X3.  A poll that returns a run returns a terminal one: the result is the
    normaliser's output for the run of the last fetch, whose status is
    [completed], [failed] or [cancelled], and the output carries that same
    status.  A non-terminal run is never returned. *)
Theorem pollUntilComplete_ok_is_terminal (host : Host) (runId : value)
    (timeoutSeconds : Z) (itemIndex : nat) (w w' : World) (out : obj) :
  pollUntilComplete host runId timeoutSeconds itemIndex w = (Ok out, w') →
  terminal out
  ∧ ∃ run, flattenRunOutput run = Ok out ∧ terminal run
      ∧ field out "status" = field run "status"
      ∧ (0 < fetches (log w'))%nat
      ∧ http host (fetches (log w') - 1) (poll_request host runId)
        = Responds run.
Proof.
  unfold pollUntilComplete, TIMEOUT_BUFFER_MS.
  destruct (poll_loop_shape host runId timeoutSeconds itemIndex
              (now w + timeoutSeconds * 1000 + 60000) w)
    as (k & new & r & w1 & -> & Hlog & Hnew & _ & _ & _ & _ & Hend).
  intros [= -> ->].
  destruct Hend as [(run & Hk & Hrun & Hterm & Hout)|[(? & _ & _ & [=])|[[=] _]]].
  symmetry in Hout. split.
  - eapply terminal_status; [|done]. by apply flattenRunOutput_status.
  - exists run. split; [done|]. split; [done|].
    split; [by apply flattenRunOutput_status|].
    apply poll_actions_counts in Hnew as [_ Hf].
    rewrite Hlog, fetches_app, Hf. split; [lia|done].
Qed.

Lemma pollUntilComplete_ok_is_terminal_witness :
  terminal example_out
  ∧ ∃ run, flattenRunOutput run = Ok example_out
      ∧ field example_out "status" = field run "status".
Proof.
  pose (h := scripted_host true ["running"; "completed"]).
  destruct (pollUntilComplete_ok_is_terminal h (VStr "run_1") 30 0 start
              (pollUntilComplete h (VStr "run_1") 30 0 start).2
              example_out)
    as (Hterm & run & Hout & _ & Hstatus & _).
  - reflexivity.
  - split; [exact Hterm|]. exists run. split; [exact Hout | exact Hstatus].
Defined.

(** X4.  A poll never reports a timeout early.  Whatever the service
    answers, an error built with an item index is the poller's own timeout
    error, for this item, run id and [timeoutSeconds], and it is raised only
    once the clock has reached start + [timeoutSeconds] + 60 s. *)
Theorem pollUntilComplete_timeout_not_early (host : Host) (runId : value)
    (timeoutSeconds : Z) (itemIndex : nat) (w w' : World)
    (message : value) (i : nat) :
  exact_deadline w timeoutSeconds →
  pollUntilComplete host runId timeoutSeconds itemIndex w
  = (Throw (NodeOperationError message (Some i)), w') →
  i = itemIndex
  ∧ message = VStr ("Run " +:+ template_str runId
                      +:+ " did not complete within "
                      +:+ pretty timeoutSeconds +:+ "s timeout")
  ∧ now w + timeoutSeconds * 1000 + 60000 ≤ now w'.
Proof.
  intros _. unfold pollUntilComplete, TIMEOUT_BUFFER_MS.
  destruct (poll_loop_shape host runId timeoutSeconds itemIndex
              (now w + timeoutSeconds * 1000 + 60000) w)
    as (k & new & r & w1 & -> & _ & _ & _ & _ & _ & _ & Hend).
  intros [= -> ->].
  destruct Hend as [(run & _ & Hrun & Hterm & Hout)
                   |[(error & _ & Herr & Hfail)|[Htimeout Hnow]]].
  - symmetry in Hout. by apply flattenRunOutput_throws in Hout.
  - injection Hfail as Hfail. symmetry in Hfail.
    by apply api_failure_no_index in Hfail.
  - by injection Htimeout as -> ->.
Qed.

Lemma pollUntilComplete_timeout_not_early_witness :
  now start + 30 * 1000 + 60000
  ≤ now (pollUntilComplete (scripted_host true []) (VStr "run_1") 30 0 start).2.
Proof.
  pose (h := scripted_host true []).
  refine (proj2 (proj2 (pollUntilComplete_timeout_not_early h (VStr "run_1")
                          30 0 start
                          (pollUntilComplete h (VStr "run_1") 30 0 start).2
                          (VStr "Run run_1 did not complete within 30s timeout")
                          0%nat _ _))).
  - split; simpl; lia.
  - vm_compute. reflexivity.
Defined.

(** ** The API client, Create Run and Get Run *)

Lemma strip_trailing_slash_snoc s : strip_trailing_slash (s +:+ "/") = s.
Proof.
  induction s as [|c s IH]; [done|]. simpl. rewrite IH.
  by destruct s.
Qed.

Lemma strip_trailing_slash_id s :
  (∀ s', s ≠ s' +:+ "/") → strip_trailing_slash s = s.
Proof.
  induction s as [|c s IH]; intros Hs; [done|]. simpl.
  destruct s as [|c' s].
  - destruct (Ascii.eqb_spec c
                (Ascii.Ascii true true true true false true false false))
      as [->|]; simpl; [|done].
    by destruct (Hs "").
  - rewrite IH; [done|]. intros s' Hs'. apply (Hs (String c s')).
    simpl. by rewrite Hs'.
Qed.

(** X5.  A base URL with one trailing slash and the same URL without it give
    the same requests: the client strips one trailing slash (only one)
    before appending the path, and every request carries the
    [X-Cospec-Source: n8n] header and is logged once. *)
Theorem cospecApiRequest_base_url (host : Host) (b : string)
    (method : Method) (path : string) (body : option obj) (w : World) :
  baseUrl host = b +:+ "/" ∨ (baseUrl host = b ∧ ∀ s, b ≠ s +:+ "/") →
  log (cospecApiRequest host method path body w).2
  = log w ++ [ {| at_ms := now w;
                  action := Fetch {| method := method; url := b +:+ path;
                                     headers := [("X-Cospec-Source", "n8n")];
                                     body := body |} |} ].
Proof.
  intros Hbase. rewrite cospecApiRequest_eq. simpl.
  destruct Hbase as [->|[-> Hb]].
  - by rewrite strip_trailing_slash_snoc.
  - by rewrite strip_trailing_slash_id.
Qed.

Lemma cospecApiRequest_base_url_witness :
  action <$> log (cospecApiRequest full_host GET "/v1/runs/run_1" None start).2
  = [ Fetch {| method := GET; url := "https://api.cospec.io/v1/runs/run_1";
               headers := [("X-Cospec-Source", "n8n")]; body := None |} ].
Proof.
  rewrite (cospecApiRequest_base_url full_host "https://api.cospec.io"
             GET "/v1/runs/run_1" None start); [reflexivity|].
  left. reflexivity.
Defined.

(** X7.  When the POST is rejected, Create Run fails with the client's error
    after that one request, whether or not it was to wait: no poll is
    started, nothing sleeps. *)
Theorem createRun_post_rejected (host : Host) (itemIndex : nat) (w : World)
    (error : value) :
  http host (fetches (log w)) (create_request host itemIndex) = Rejects error →
  createRun host itemIndex w
  = (Throw (api_failure error),
     {| now := now w + Z.of_N (latency host (fetches (log w)));
        log := log w ++ [{| at_ms := now w;
                            action := Fetch (create_request host itemIndex) |}]
     |}).
Proof.
  intros Hpost. unfold createRun, mbind, M_bind.
  rewrite cospecApiRequest_eq. simpl.
  fold (create_request host itemIndex). by rewrite Hpost.
Qed.

Lemma createRun_post_rejected_witness :
  (createRun down_host 0 start).1 = Throw (NodeOperationError (VStr "X") None)
  ∧ action <$> log (createRun down_host 0 start).2
    = [Fetch (create_request down_host 0)].
Proof.
  rewrite (createRun_post_rejected down_host 0 start validation_error);
    [|reflexivity].
  split; reflexivity.
Defined.

(** X8.  Create Run with wait-for-completion, end to end: after the POST it
    polls the run named by the response's [id], with the timeout of the
    item's guardrails counted from the moment the POST returned; when [k]
    non-terminal polls are followed by a terminal one before the deadline,
    it returns the normaliser's result on that run.  The requests are the
    POST and then [k + 1] rounds of sleep and GET. *)
Theorem createRun_wait_end_to_end (host : Host) (itemIndex : nat) (w : World)
    (response run : obj) (k : nat) :
  waitForCompletion (parameters host itemIndex) = true →
  http host (fetches (log w)) (create_request host itemIndex)
    = Responds response →
  elapsed host (sleeps (log w)) (S (fetches (log w))) k
    < getTimeoutSeconds host itemIndex * 1000 + 60000 →
  (∀ i, (i < k)%nat →
     ∃ r, http host (S (fetches (log w)) + i)
            (poll_request host (field response "id"))
          = Responds r ∧ ¬ terminal r) →
  http host (S (fetches (log w)) + k)
    (poll_request host (field response "id")) = Responds run →
  terminal run →
  ∃ w' new,
    createRun host itemIndex w = (flattenRunOutput run, w')
    ∧ log w' = log w ++ new
    ∧ action <$> new
      = Fetch (create_request host itemIndex)
          :: poll_actions host (field response "id") (S k).
Proof.
  intros Hwait Hpost Htime Hresp Hrun Hterm.
  set (posted :=
    {| now := now w + Z.of_N (latency host (fetches (log w)));
       log := log w ++ [{| at_ms := now w;
                           action := Fetch (create_request host itemIndex) |}]
    |}).
  assert (Hcreate : cospecApiRequest host POST "/v1/runs"
                      (Some (buildRequestBody host itemIndex)) w
                    = (Ok response, posted)).
  { rewrite cospecApiRequest_eq. simpl.
    fold (create_request host itemIndex). by rewrite Hpost. }
  assert (Hs : sleeps (log posted) = sleeps (log w)).
  { unfold posted. simpl. rewrite sleeps_snoc. simpl. lia. }
  assert (Hf : fetches (log posted) = S (fetches (log w))).
  { unfold posted. simpl. rewrite fetches_snoc. simpl. lia. }
  unfold createRun, mbind, M_bind. rewrite Hcreate, Hwait. simpl.
  unfold pollUntilComplete, TIMEOUT_BUFFER_MS.
  destruct (poll_loop_reach host (field response "id")
              (getTimeoutSeconds host itemIndex) itemIndex
              (now posted + getTimeoutSeconds host itemIndex * 1000 + 60000)
              k posted)
    as (w1 & -> & Hnow & Hf1 & _ & new & Hlog & Hnew).
  { rewrite Hs, Hf. lia. }
  { intros i Hi. rewrite Hf. by apply Hresp. }
  rewrite Hf in Hf1. rewrite <- Hf1 in Hrun.
  rewrite (poll_loop_return _ _ _ _ _ _ run) by done.
  exists (after_poll host (field response "id") w1),
    ({| at_ms := now w;
        action := Fetch (create_request host itemIndex) |} :: new).
  split; [done|]. split.
  - rewrite Hlog. unfold posted. simpl. by rewrite <- app_assoc.
  - by rewrite fmap_cons, Hnew.
Qed.

Lemma createRun_wait_end_to_end_witness :
  ∃ w' new,
    createRun (scripted_host true ["queued"; "running"; "completed"]) 0 start
    = (flattenRunOutput (run_with "completed"), w')
    ∧ log w' = log start ++ new
    ∧ length new = 5%nat.
Proof.
  pose (h := scripted_host true ["queued"; "running"; "completed"]).
  destruct (createRun_wait_end_to_end h 0 start (run_with "queued")
              (run_with "completed") 1)
    as (w' & new & Hrun & Hlog & Hnew).
  - reflexivity.
  - reflexivity.
  - reflexivity.
  - intros i Hi. exists (run_with "running"). split.
    + destruct i as [|i]; [reflexivity|lia].
    + intros (s & Hs & Hin). vm_compute in Hs. injection Hs as <-.
      apply list_elem_of_In in Hin. simpl in Hin.
      intuition discriminate.
  - reflexivity.
  - exists "completed". split; [reflexivity|].
    apply list_elem_of_In. simpl. tauto.
  - exists w', new. split; [exact Hrun|]. split; [exact Hlog|].
    apply (f_equal length) in Hnew. rewrite length_fmap in Hnew. exact Hnew.
Defined.

(** ** The request body *)

Lemma env_fold_not_in (values : list (string * string)) (m : obj) k :
  k ∉ values.*1 →
  foldl (λ env entry, assign_env env entry.1 entry.2) m values !! k = m !! k.
Proof.
  revert m. induction values as [|[k' v'] values IH]; intros m Hk; [done|].
  simpl in *. apply not_elem_of_cons in Hk as [Hne Hk].
  rewrite IH by done. unfold assign_env.
  destruct (String.eqb k' "__proto__"); [done|]. by rewrite lookup_insert_ne.
Qed.

Lemma env_fold_proto (values : list (string * string)) (m : obj) :
  foldl (λ env entry, assign_env env entry.1 entry.2) m values !! "__proto__"
  = m !! "__proto__".
Proof.
  revert m. induction values as [|[k' v'] values IH]; intros m; [done|].
  simpl. rewrite IH. unfold assign_env.
  destruct (String.eqb_spec k' "__proto__") as [->|Hne]; [done|].
  by rewrite lookup_insert_ne.
Qed.

Lemma appendEnvVars_other host body itemIndex k :
  k ≠ "env" → appendEnvVars host body itemIndex !! k = body !! k.
Proof.
  intros Hk. unfold appendEnvVars.
  destruct (env (parameters host itemIndex)); [|done].
  by rewrite lookup_insert_ne.
Qed.

(** X9.  The environment of the request body: when the item has
    environment variables, [env] is an object holding, for each key other
    than [__proto__], the value of the last entry with that key (later
    entries overwrite earlier ones) and nothing else; an entry named
    [__proto__] is not sent, and an empty list still sends an empty [env].
    When the item has none, the body is left as it is.  No other field of
    the body is touched. *)
Theorem appendEnvVars_last_wins (host : Host) (body : obj) (itemIndex : nat) :
  (env (parameters host itemIndex) = None →
   appendEnvVars host body itemIndex = body)
  ∧ (∀ values, env (parameters host itemIndex) = Some values →
       ∃ e : obj,
         appendEnvVars host body itemIndex !! "env" = Some (VObj e)
         ∧ (∀ k v l1 l2, values = l1 ++ (k, v) :: l2 → k ∉ l2.*1 →
              k ≠ "__proto__" → e !! k = Some (VStr v))
         ∧ (∀ k, k ∉ values.*1 → e !! k = None)
         ∧ e !! "__proto__" = None)
  ∧ (∀ k, k ≠ "env" → appendEnvVars host body itemIndex !! k = body !! k).
Proof.
  split; [|split].
  - intros Hnone. unfold appendEnvVars. by rewrite Hnone.
  - intros values Hvalues. unfold appendEnvVars. rewrite Hvalues.
    eexists. split; [by rewrite lookup_insert_eq|]. split; [|split].
    + intros k v l1 l2 -> Hk Hproto. rewrite foldl_app. simpl.
      rewrite env_fold_not_in by done. unfold assign_env.
      apply String.eqb_neq in Hproto. rewrite Hproto.
      by rewrite lookup_insert_eq.
    + intros k Hk. by rewrite env_fold_not_in.
    + by rewrite env_fold_proto.
  - intros k Hk. by apply appendEnvVars_other.
Qed.

Lemma appendEnvVars_last_wins_witness :
  ∃ e : obj,
    appendEnvVars proto_host ∅ 0 !! "env" = Some (VObj e)
    ∧ e !! "A" = Some (VStr "3") ∧ e !! "B" = Some (VStr "2")
    ∧ e !! "C" = None ∧ e !! "__proto__" = None.
Proof.
  destruct (proj1 (proj2 (appendEnvVars_last_wins proto_host ∅ 0))
              [("A", "1"); ("__proto__", "x"); ("B", "2"); ("A", "3")]
              eq_refl)
    as (e & He & Hlast & Hnone & Hproto).
  exists e. split; [exact He|]. split; [|split; [|split]].
  - apply (Hlast "A" "3" [("A", "1"); ("__proto__", "x"); ("B", "2")] []);
      [reflexivity| |discriminate].
    simpl. apply not_elem_of_nil.
  - apply (Hlast "B" "2" [("A", "1"); ("__proto__", "x")] [("A", "3")]);
      [reflexivity| |discriminate].
    simpl. intros H%list_elem_of_In. simpl in H.
    destruct H as [H|[]]. discriminate H.
  - apply Hnone. simpl. intros H%list_elem_of_In. simpl in H.
    repeat destruct H as [H|H]; solve [discriminate H | destruct H].
  - exact Hproto.
Defined.

Lemma buildRequestBody_lookup host itemIndex k :
  let p := parameters host itemIndex in
  buildRequestBody host itemIndex !! k =
    if decide (k = "env") then
      match env p with
      | Some values =>
          Some (VObj (foldl (λ env entry, assign_env env entry.1 entry.2)
                        ∅ values))
      | None => None
      end
    else if decide (k = "guardrails") then
      if decide (guardrails p = ∅) then None
      else Some (VObj (VNum <$> guardrails p))
    else if decide (k = "branch") then
      if decide (branch p = "") then None else Some (VStr (branch p))
    else if decide (k = "repo") then Some (VStr (repo p))
    else if decide (k = "prompt") then Some (VStr (prompt p))
    else if decide (k = "template") then Some (VStr (template p))
    else if decide (k = "model") then Some (VStr (model p))
    else None.
Proof.
  intros p. unfold buildRequestBody, appendEnvVars. fold p.
  rewrite truthy_VStr.
  assert (Hguard : bool_decide (0 < size (guardrails p))%nat
                   = bool_decide (guardrails p ≠ ∅)).
  { apply bool_decide_ext. rewrite <- map_size_non_empty_iff. lia. }
  rewrite Hguard.
  destruct (env p) as [values|]; repeat case_bool_decide;
    rewrite !lookup_insert, lookup_singleton;
    repeat case_decide; congruence.
Qed.

(** X10.  The body of the POST: [repo], [prompt], [template] and [model] are
    always sent; [branch] only when not empty; [guardrails] only when at
    least one is set, and then exactly the configured ones; [env] exactly
    when the item has environment variables; and no other field (the wait
    flag and the run id are never sent). *)
Theorem buildRequestBody_fields (host : Host) (itemIndex : nat) :
  let p := parameters host itemIndex in
  let body := buildRequestBody host itemIndex in
  body !! "repo" = Some (VStr (repo p))
  ∧ body !! "prompt" = Some (VStr (prompt p))
  ∧ body !! "template" = Some (VStr (template p))
  ∧ body !! "model" = Some (VStr (model p))
  ∧ body !! "branch"
    = (if decide (branch p = "") then None else Some (VStr (branch p)))
  ∧ body !! "guardrails"
    = (if decide (guardrails p = ∅) then None
       else Some (VObj (VNum <$> guardrails p)))
  ∧ (is_Some (body !! "env") ↔ is_Some (env p))
  ∧ ∀ k, k ∉ [ "repo"; "prompt"; "template"; "model"; "branch";
               "guardrails"; "env" ] → body !! k = None.
Proof.
  intros p body. unfold body.
  repeat split.
  1-6: by rewrite buildRequestBody_lookup.
  - rewrite buildRequestBody_lookup. simpl. fold p.
    destruct (env p); [by eexists|by intros [? [=]]].
  - rewrite buildRequestBody_lookup. simpl. fold p.
    destruct (env p); [by eexists|by intros [? [=]]].
  - intros k Hk. rewrite !not_elem_of_cons in Hk. destruct_and!.
    rewrite buildRequestBody_lookup. by rewrite !decide_False by done.
Qed.

Lemma buildRequestBody_fields_witness :
  buildRequestBody full_host 0 !! "branch" = Some (VStr "dev")
  ∧ buildRequestBody (scripted_host false []) 0 !! "branch" = None
  ∧ buildRequestBody full_host 0 !! "waitForCompletion" = None.
Proof.
  split; [|split].
  - exact (proj1 (proj2 (proj2 (proj2 (proj2
             (buildRequestBody_fields full_host 0)))))).
  - exact (proj1 (proj2 (proj2 (proj2 (proj2
             (buildRequestBody_fields (scripted_host false []) 0)))))).
  - apply (buildRequestBody_fields full_host 0).
    intros H%list_elem_of_In. simpl in H.
    repeat destruct H as [H|H]; solve [discriminate H | destruct H].
Defined.

(** ** The error extractor, further *)

(** X11.  A non-empty [detail] string in the context body is the message,
    whatever else the error holds: the body's [errors] array and the cause
    body are not even looked at, so a malformed one does no harm. *)
Theorem extractApiErrorMessage_detail_wins (error : value) (detail : string) :
  get_opt (context_body error) "detail" = VStr detail →
  detail ≠ "" →
  extractApiErrorMessage error = Ok (VStr detail).
Proof.
  intros Hdetail Hne. unfold context_body in Hdetail.
  unfold extractApiErrorMessage.
  destruct error as [| | | | | |e]; try done. simpl get. simpl.
  simpl in Hdetail.
  destruct (get_opt (field e "context") "data") as [| | | | | |data] eqn:Hdata;
    try done.
  simpl. unfold extractFromBody. simpl. simpl in Hdetail. rewrite Hdetail.
  simpl. destruct (String.eqb_spec detail ""); [done|]. reflexivity.
Qed.

Lemma extractApiErrorMessage_detail_wins_witness :
  extractApiErrorMessage detailed_error = Ok (VStr "repo is required").
Proof.
  apply (extractApiErrorMessage_detail_wins detailed_error "repo is required").
  - reflexivity.
  - discriminate.
Defined.

(** X12.  The cause body is a fallback only: when the context body yields a
    message, that message is returned whatever the transport cause holds. *)
Theorem extractApiErrorMessage_context_first (error : value) (m : string) :
  nullish error = false →
  errors_head_ok (context_body error) →
  yields (context_body error) = Some m →
  extractApiErrorMessage error = Ok (VStr m).
Proof.
  intros Herror Hcontext Hm. unfold extractApiErrorMessage.
  rewrite !(get_ok error) by done. simpl. fold (context_body error).
  destruct (extractFromBody_yields _ Hcontext) as (v & -> & Hyes & Hno).
  simpl. destruct (truthy v).
  - destruct Hyes as (m' & -> & Hm'); [done|]. congruence.
  - rewrite Hno in Hm by done. discriminate Hm.
Qed.

Lemma extractApiErrorMessage_context_first_witness :
  extractApiErrorMessage
    (VObj {[ "context" := VObj {[ "data" := VObj {[ "title" := VStr "Y" ]} ]};
             "cause" := VObj {[ "response" := VObj {[ "data" := VObj
               {[ "detail" := VStr "Z"; "errors" := VArr [VNull] ]} ]} ]} ]})
  = Ok (VStr "Y").
Proof.
  apply extractApiErrorMessage_context_first.
  - reflexivity.
  - intros first rest H. vm_compute in H. discriminate H.
  - reflexivity.
Defined.

(** X13.  An error that is not an object (a thrown string, number, boolean
    or array) has nothing to extract from: the result is the literal
    ["Unknown API error"], and what was thrown is lost. *)
Theorem extractApiErrorMessage_not_an_object (error : value) :
  nullish error = false →
  (∀ o, error ≠ VObj o) →
  extractApiErrorMessage error = Ok (VStr "Unknown API error").
Proof.
  intros Hnull Hobj. destruct error; try done. by destruct (Hobj o).
Qed.

Lemma extractApiErrorMessage_not_an_object_witness :
  extractApiErrorMessage (VStr "socket hang up")
  = Ok (VStr "Unknown API error").
Proof.
  apply extractApiErrorMessage_not_an_object; [reflexivity|discriminate].
Defined.

(** ** The output normaliser, further *)

Lemma strip_internal_outputs run :
  field (strip_internal run) "outputs" = field run "outputs".
Proof.
  unfold field. rewrite strip_internal_lookup, decide_False; [done|].
  intros H%internal_field_iff%list_elem_of_In. simpl in H.
  intuition discriminate.
Qed.

(** X14.  Whenever [outputs] holds something that is neither a list nor
    [null]/[undefined] (a string, a number, a boolean, an object), the
    normaliser raises a [TypeError]. *)
Theorem flattenRunOutput_non_list_raises (run : obj) (v : value) :
  run !! "outputs" = Some v →
  nullish v = false →
  (∀ l, v ≠ VArr l) →
  flattenRunOutput run = Throw TypeError.
Proof.
  intros Hv Hnull Hlist.
  rewrite flattenRunOutput_derived, strip_internal_outputs.
  unfold field. rewrite Hv. simpl. unfold coalesce. rewrite Hnull.
  destruct v; try done. by destruct (Hlist l).
Qed.

Lemma flattenRunOutput_non_list_raises_witness :
  flattenRunOutput {[ "outputs" := VObj {[ "type" := VStr "pr" ]} ]}
  = Throw TypeError.
Proof.
  apply (flattenRunOutput_non_list_raises _ (VObj {[ "type" := VStr "pr" ]})).
  - reflexivity.
  - reflexivity.
  - discriminate.
Defined.

Lemma firstOfType_null_entry t l1 o l2 :
  no_null_entry l1 → none_of_type l1 t → nullish o = true →
  firstOfType (VArr (l1 ++ o :: l2)) t = Throw TypeError.
Proof.
  intros Hl1 Hnone Ho. simpl.
  induction Hl1 as [|x l1 Hx _ IH]; simpl.
  - by destruct o.
  - rewrite get_ok by done. simpl.
    destruct (strict_eq_str (get_opt x "type") t) eqn:Hxt.
    + apply strict_eq_str_has_type in Hxt. destruct (Hnone x); [left|done].
    + apply IH. intros y Hy. apply Hnone. by right.
Qed.

(** X15.  A [null] or [undefined] entry in [outputs] makes the normaliser
    raise a [TypeError] as soon as one of the four tags [pr], [issue],
    [branch], [text] has no element before that entry: the scan for that
    tag reaches the entry and reads its [type]. *)
Theorem flattenRunOutput_null_entry_raises (run : obj)
    (l1 l2 : list value) (o : value) (t : string) :
  run !! "outputs" = Some (VArr (l1 ++ o :: l2)) →
  nullish o = true →
  no_null_entry l1 →
  t ∈ [ "pr"; "issue"; "branch"; "text" ] →
  none_of_type l1 t →
  flattenRunOutput run = Throw TypeError.
Proof.
  intros Hout Ho Hl1 Ht Hnone.
  rewrite flattenRunOutput_derived, strip_internal_outputs.
  unfold field. rewrite Hout. simpl. unfold coalesce. simpl.
  assert (Hraise := firstOfType_null_entry t l1 o l2 Hl1 Hnone Ho).
  assert (Hany : ∀ t', ∃ r, firstOfType (VArr (l1 ++ o :: l2)) t' = r
                           ∧ (r = Throw TypeError ∨ ∃ x, r = Ok x)).
  { intros t'. eexists. split; [done|].
    destruct (firstOfType _ t') as [x|e] eqn:Hr; [eauto|].
    left. by apply firstOfType_throws in Hr as ->. }
  unfold derived.
  apply list_elem_of_In in Ht. simpl in Ht.
  destruct (Hany "pr") as (r1 & H1 & [->|[x1 ->]]); rewrite H1; [done|].
  destruct (Hany "issue") as (r2 & H2 & [->|[x2 ->]]); rewrite H2; [done|].
  destruct (Hany "branch") as (r3 & H3 & [->|[x3 ->]]); rewrite H3; [done|].
  destruct (Hany "text") as (r4 & H4 & [->|[x4 ->]]); rewrite H4; [done|].
  destruct Ht as [<-|[<-|[<-|[<-|[]]]]]; congruence.
Qed.

Lemma flattenRunOutput_null_entry_raises_witness :
  flattenRunOutput
    {[ "outputs" := VArr [VObj {[ "type" := VStr "pr" ]}; VNull] ]}
  = Throw TypeError.
Proof.
  apply (flattenRunOutput_null_entry_raises _
           [VObj {[ "type" := VStr "pr" ]}] [] VNull "text").
  - reflexivity.
  - reflexivity.
  - repeat constructor.
  - apply list_elem_of_In. simpl. tauto.
  - intros x Hx%list_elem_of_In Ht. simpl in Hx. destruct Hx as [<-|[]].
    vm_compute in Ht. discriminate Ht.
Defined.

(** X16.  The result does not depend on the internal fields at all: setting
    [callbackUrl], [callbackStatus], [cancelRequestedAt] or [templateId] to
    any value, or removing it, changes neither the output nor whether the
    normaliser fails. *)
Theorem flattenRunOutput_ignores_internal (run : obj) (k : string) (v : value) :
  k ∈ [ "callbackUrl"; "callbackStatus"; "cancelRequestedAt"; "templateId" ] →
  flattenRunOutput (<[k := v]> run) = flattenRunOutput run
  ∧ flattenRunOutput (delete k run) = flattenRunOutput run.
Proof.
  intros Hk%internal_field_iff.
  assert (Hins : strip_internal (<[k := v]> run) = strip_internal run).
  { apply map_eq. intros j. rewrite !strip_internal_lookup.
    case_decide; [done|]. rewrite lookup_insert_ne; [done|congruence]. }
  assert (Hdel : strip_internal (delete k run) = strip_internal run).
  { apply map_eq. intros j. rewrite !strip_internal_lookup.
    case_decide; [done|]. rewrite lookup_delete_ne; [done|congruence]. }
  by rewrite !flattenRunOutput_derived, Hins, Hdel.
Qed.

Lemma flattenRunOutput_ignores_internal_witness :
  flattenRunOutput (<["templateId" := VNum 7]> example_run)
  = flattenRunOutput example_run.
Proof.
  apply (flattenRunOutput_ignores_internal example_run "templateId" (VNum 7)).
  apply list_elem_of_In. simpl. tauto.
Defined.

(** X17.  The keys of the output are exactly the non-internal keys of the
    input together with [pr], [issue], [branch] and [summary]: the
    normaliser adds no other key and drops no other key. *)
Theorem flattenRunOutput_keys (run out : obj) (k : string) :
  flattenRunOutput run = Ok out →
  is_Some (out !! k)
  ↔ (is_Some (run !! k)
     ∧ k ∉ [ "callbackUrl"; "callbackStatus"; "cancelRequestedAt";
             "templateId" ])
    ∨ k ∈ [ "pr"; "issue"; "branch"; "summary" ].
Proof.
  intros (d & _ & ->)%flattenRunOutput_inv.
  rewrite with_derived_lookup, strip_internal_lookup, internal_field_iff.
  rewrite !elem_of_cons, elem_of_nil.
  assert (Hsome : ∀ x : value, is_Some (Some x)) by (intros; by eexists).
  assert (Hnone : ¬ is_Some (@None value)) by (by intros [? [=]]).
  repeat case_decide; subst;
    (split;
     [ intros Hs;
       first [ right; tauto | left; tauto | by destruct (Hnone Hs) ]
     | intros [[Hs Hn]|Hd];
       first [ apply Hsome | exact Hs | done
             | exfalso; intuition congruence ] ]).
Qed.

Lemma flattenRunOutput_keys_witness :
  is_Some (example_out !! "id") ∧ ¬ is_Some (example_out !! "callbackUrl").
Proof.
  split.
  - apply (flattenRunOutput_keys example_run example_out "id"); [reflexivity|].
    left. split; [by eexists|].
    intros H%list_elem_of_In. simpl in H.
    repeat destruct H as [H|H]; solve [discriminate H | destruct H].
  - intros H.
    apply (flattenRunOutput_keys example_run example_out "callbackUrl") in H;
      [|reflexivity].
    destruct H as [[_ H]|H].
    + apply H, list_elem_of_In. simpl. tauto.
    + apply list_elem_of_In in H. simpl in H.
      repeat destruct H as [H|H]; solve [discriminate H | destruct H].
Defined.

(** ** The trigger's webhook lifecycle *)

Section TriggerFacts.
Context (th : TriggerHost).

Lemma undefined_not_truthy (o : obj) k :
  truthy (field (delete k o) k) = false.
Proof. unfold field. by rewrite lookup_delete_eq. Qed.

Lemma array_some_ids stored (webhooks : list value) :
  no_null_entry webhooks →
  array_some (λ wh, id ← get wh "id"; Ok (strict_eq id stored)) webhooks
  = Ok (existsb (λ wh, strict_eq (get_opt wh "id") stored) webhooks).
Proof.
  induction 1 as [|wh webhooks Hwh _ IH]; simpl; [done|].
  rewrite get_ok by done. simpl.
  by destruct (strict_eq (get_opt wh "id") stored).
Qed.

(** The world after a single request [req]. *)
Lemma cospecApiRequest_world method path body w :
  (cospecApiRequest (api th) method path body w).2
  = {| now := now w + Z.of_N (latency (api th) (fetches (log w)));
       log := log w ++ [{| at_ms := now w;
                           action := Fetch
                             {| method := method;
                                url := strip_trailing_slash (baseUrl (api th))
                                         +:+ path;
                                headers := [("X-Cospec-Source", "n8n")];
                                body := body |} |}] |}.
Proof. by rewrite cospecApiRequest_eq. Qed.

Lemma checkExists_stored s :
  truthy (field (staticData s) "webhookId") = true →
  let w' := (cospecApiRequest (api th) GET "/v1/webhooks" None (world s)).2 in
  let cleared := {| world := w';
                    staticData := delete "webhookId" (staticData s) |} in
  checkExists th s =
    match http (api th) (fetches (log (world s))) (list_request th) with
    | Responds response =>
        match field response "data" with
        | VArr webhooks =>
            match array_some
                    (λ wh, id ← get wh "id";
                       Ok (strict_eq id (field (staticData s) "webhookId")))
                    webhooks with
            | Ok true => (Ok true, {| world := w'; staticData := staticData s |})
            | _ => (Ok false, cleared)
            end
        | _ => (Ok false, cleared)
        end
    | Rejects _ => (Ok false, cleared)
    end.
Proof.
  intros Hstored. unfold checkExists. rewrite Hstored. simpl.
  rewrite cospecApiRequest_eq. simpl. fold (list_request th).
  destruct (http (api th) _ _) as [response|error]; [|done].
  by destruct (field response "data").
Qed.

Lemma deleteWebhook_eq s :
  deleteWebhook th s =
    if truthy (field (staticData s) "webhookId") then
      (Ok true,
       {| world :=
            (cospecApiRequest (api th) DELETE
               ("/v1/webhooks/"
                  +:+ template_str (field (staticData s) "webhookId"))
               None (world s)).2;
          staticData := delete "webhookId" (staticData s) |})
    else (Ok true, s).
Proof.
  unfold deleteWebhook. destruct (truthy _); [|done].
  by destruct (cospecApiRequest _ _ _ _ _).
Qed.

End TriggerFacts.

(** X18.  [checkExists] never fails and issues at most one request (none
    when no webhook id is stored).  It answers [true] exactly when a webhook
    id is still stored afterwards: on [true] the static data is untouched,
    on [false] with an id stored the id is removed and nothing else. *)
Theorem checkExists_self_healing (th : TriggerHost) (s : HookState) :
  ∃ (b : bool) s',
    checkExists th s = (Ok b, s')
    ∧ (b = true ↔ truthy (field (staticData s') "webhookId") = true)
    ∧ (b = true → staticData s' = staticData s)
    ∧ (b = false → staticData s' = delete "webhookId" (staticData s)
                   ∨ s' = s)
    ∧ (truthy (field (staticData s) "webhookId") = false → s' = s)
    ∧ (fetches (log (world s')) ≤ S (fetches (log (world s))))%nat.
Proof.
  destruct (truthy (field (staticData s) "webhookId")) eqn:Hstored.
  2:{ exists false, s. unfold checkExists. rewrite Hstored. simpl.
      repeat split; try done; try congruence; try lia. by right. }
  rewrite checkExists_stored by done. rewrite cospecApiRequest_world.
  assert (Hf : ∀ req,
    (fetches (log (world s) ++ [{| at_ms := now (world s);
                                   action := Fetch req |}])
     ≤ S (fetches (log (world s))))%nat).
  { intros req. rewrite fetches_snoc. simpl. lia. }
  destruct (http (api th) _ _) as [response|error].
  - destruct (field response "data") as [| | | | |webhooks|];
      try (exists false; eexists; split; [done|]; simpl;
           rewrite undefined_not_truthy;
           repeat split; try done; try congruence; by left).
    destruct (array_some _ webhooks) as [[]|];
      [exists true|exists false|exists false]; eexists; (split; [done|]);
      simpl; rewrite ?undefined_not_truthy;
      repeat split; try done; try congruence; by left.
  - exists false. eexists. split; [done|]. simpl.
    rewrite undefined_not_truthy.
    repeat split; try done; try congruence. by left.
Qed.

(** X19.  With an id stored and the service listing webhooks (none of them
    [null]), [checkExists] answers [true] exactly when the list has an
    entry whose [id] is the stored one. *)
Theorem checkExists_finds_registered (th : TriggerHost) (s : HookState)
    (id : string) (response : obj) (webhooks : list value) :
  field (staticData s) "webhookId" = VStr id →
  id ≠ "" →
  http (api th) (fetches (log (world s))) (list_request th)
    = Responds response →
  field response "data" = VArr webhooks →
  no_null_entry webhooks →
  (checkExists th s).1 = Ok true
  ↔ ∃ wh, wh ∈ webhooks ∧ get_opt wh "id" = VStr id.
Proof.
  intros Hid Hne Hhttp Hdata Hnull.
  rewrite checkExists_stored
    by (rewrite Hid, truthy_VStr; by apply bool_decide_eq_true_2).
  rewrite Hhttp, Hdata, Hid, array_some_ids by done.
  destruct (existsb _ webhooks) eqn:Hex; simpl.
  - split; [intros _|done].
    apply existsb_exists in Hex as (wh & Hin & Heq).
    exists wh. split; [by apply list_elem_of_In|].
    destruct (get_opt wh "id"); simpl in Heq; try done.
    by apply bool_decide_eq_true in Heq as ->.
  - split; [done|]. intros (wh & Hin & Hwh).
    assert (existsb (λ wh, strict_eq (get_opt wh "id") (VStr id)) webhooks
            = true); [|congruence].
    apply existsb_exists. exists wh. split; [by apply list_elem_of_In|].
    rewrite Hwh. simpl. by apply bool_decide_eq_true_2.
Qed.

Lemma checkExists_finds_registered_witness :
  (checkExists sample_trigger
     {| world := start; staticData := {[ "webhookId" := VStr "wh_2" ]} |}).1
  = Ok true.
Proof.
  apply (checkExists_finds_registered sample_trigger _ "wh_2" webhook_listing
           [ VObj {[ "id" := VStr "wh_1" ]}; VObj {[ "id" := VStr "wh_2" ]} ]).
  - reflexivity.
  - discriminate.
  - reflexivity.
  - reflexivity.
  - repeat constructor.
  - exists (VObj {[ "id" := VStr "wh_2" ]}). split; [|reflexivity].
    apply list_elem_of_In. simpl. tauto.
Defined.

(** X20.  With an id stored, a failed check forgets it: when the listing
    request is rejected, or the response's [data] is not a list,
    [checkExists] answers [false] after that one request and removes the
    stored id, so that the next activation registers anew. *)
Theorem checkExists_forgets_on_failure (th : TriggerHost) (s : HookState) :
  truthy (field (staticData s) "webhookId") = true →
  (∃ error, http (api th) (fetches (log (world s))) (list_request th)
            = Rejects error)
  ∨ (∃ response, http (api th) (fetches (log (world s))) (list_request th)
                 = Responds response
                 ∧ ∀ l, field response "data" ≠ VArr l) →
  checkExists th s
  = (Ok false,
     {| world :=
          {| now := now (world s)
                    + Z.of_N (latency (api th) (fetches (log (world s))));
             log := log (world s)
                    ++ [{| at_ms := now (world s);
                           action := Fetch (list_request th) |}] |};
        staticData := delete "webhookId" (staticData s) |}).
Proof.
  intros Hstored Hfail. rewrite checkExists_stored by done.
  rewrite cospecApiRequest_world. fold (list_request th).
  destruct Hfail as [[error ->]|(response & -> & Hdata)]; [done|].
  destruct (field response "data"); try done. by destruct (Hdata l).
Qed.

Lemma checkExists_forgets_on_failure_witness :
  (checkExists
     {| api := down_host; webhookUrl := "u"; events := [];
        triggerTypeErrorText := "" |}
     {| world := start; staticData := {[ "webhookId" := VStr "wh_2" ]} |}).1
  = Ok false.
Proof.
  rewrite checkExists_forgets_on_failure; [reflexivity|reflexivity|].
  left. exists validation_error. reflexivity.
Defined.

(** X21.  A successful registration posts [{url, events}] once and stores
    the response's [id] as the webhook id, leaving the rest of the static
    data alone.  A rejected one stores nothing and raises an error built
    with ["Failed to register webhook: "] followed by a reason that is never
    empty: the message the client's error shows, which is what the host's
    error class made of the extracted message, when that is not empty. *)
Theorem createWebhook_outcome (cls : ErrorClass) (th : TriggerHost)
    (s : HookState) :
  let w' :=
    {| now := now (world s)
              + Z.of_N (latency (api th) (fetches (log (world s))));
       log := log (world s)
              ++ [{| at_ms := now (world s);
                     action := Fetch (register_request th) |}] |} in
  (∀ response,
     http (api th) (fetches (log (world s))) (register_request th)
       = Responds response →
     createWebhook cls th s
     = (Ok true,
        {| world := w';
           staticData := <["webhookId" := field response "id"]>
                           (staticData s) |}))
  ∧ (∀ error,
       http (api th) (fetches (log (world s))) (register_request th)
         = Rejects error →
       ∃ reason,
         reason ≠ ""
         ∧ createWebhook cls th s
           = (Throw (NodeOperationError
                       (VStr ("Failed to register webhook: " +:+ reason))
                       None),
              {| world := w'; staticData := staticData s |})
         ∧ ∀ extracted shown,
             extractApiErrorMessage error = Ok extracted →
             build cls extracted = Some shown → shown ≠ "" →
             reason = shown).
Proof.
  intros w'. split.
  - intros response Hhttp. unfold createWebhook.
    rewrite cospecApiRequest_eq. simpl. fold (register_request th).
    by rewrite Hhttp.
  - intros error Hhttp. unfold createWebhook.
    rewrite cospecApiRequest_eq. cbv beta zeta. fold (register_request th).
    rewrite Hhttp. cbv beta iota.
    remember (default (triggerTypeErrorText th)
                (shown_message cls (api_failure error))) as shown eqn:Hshown.
    exists (if truthy (VStr shown) then shown else "Unknown error").
    split; [|split].
    + rewrite truthy_VStr. by case_bool_decide.
    + by destruct (truthy (VStr shown)).
    + intros extracted shown' Hextracted Hbuild Hne.
      unfold api_failure in Hshown. rewrite Hextracted in Hshown.
      simpl in Hshown. rewrite Hbuild in Hshown. simpl in Hshown. subst shown.
      rewrite truthy_VStr. by rewrite bool_decide_eq_true_2.
Qed.

Lemma createWebhook_outcome_witness :
  staticData (createWebhook node_error_class sample_trigger fresh_hook).2
    !! "webhookId"
  = Some (VStr "wh_2").
Proof.
  rewrite (proj1 (createWebhook_outcome node_error_class sample_trigger
                    fresh_hook)
             {[ "id" := VStr "wh_2" ]}); reflexivity.
Defined.

(** X22.  [deleteWebhook] never fails and always answers [true].  With an
    id stored it issues one DELETE for [/v1/webhooks/<id>] and then forgets
    the id, even when the request is rejected; with none stored it does
    nothing.  Either way no usable id is stored afterwards and the rest of
    the static data is kept. *)
Theorem deleteWebhook_forgets (th : TriggerHost) (s : HookState) :
  ∃ s', deleteWebhook th s = (Ok true, s')
    ∧ truthy (field (staticData s') "webhookId") = false
    ∧ (∀ k, k ≠ "webhookId" → staticData s' !! k = staticData s !! k)
    ∧ (truthy (field (staticData s) "webhookId") = false → s' = s)
    ∧ (truthy (field (staticData s) "webhookId") = true →
       staticData s' !! "webhookId" = None
       ∧ log (world s')
         = log (world s)
           ++ [{| at_ms := now (world s);
                  action := Fetch (unregister_request th
                                     (field (staticData s) "webhookId")) |}]).
Proof.
  rewrite deleteWebhook_eq.
  destruct (truthy (field (staticData s) "webhookId")) eqn:Hstored.
  - rewrite cospecApiRequest_world.
    eexists. split; [done|]. simpl. rewrite undefined_not_truthy.
    split; [done|]. split; [by intros k ?; rewrite lookup_delete_ne|].
    split; [done|]. intros _. by rewrite lookup_delete_eq.
  - exists s. repeat split; try done.
Qed.

(** X23.  After [deleteWebhook], [checkExists] answers [false] without
    asking the service: the lifecycle starts over with a registration. *)
Theorem deleteWebhook_then_checkExists (th : TriggerHost) (s : HookState) :
  checkExists th (deleteWebhook th s).2 = (Ok false, (deleteWebhook th s).2).
Proof.
  rewrite deleteWebhook_eq.
  destruct (truthy (field (staticData s) "webhookId")) eqn:Hstored; simpl.
  - unfold checkExists. simpl. by rewrite undefined_not_truthy.
  - unfold checkExists. by rewrite Hstored.
Qed.

(** ** The trigger's payload handler *)

Lemma flattenRunOutput_other (run flat : obj) k :
  flattenRunOutput run = Ok flat →
  k ∉ [ "callbackUrl"; "callbackStatus"; "cancelRequestedAt"; "templateId";
        "pr"; "issue"; "branch"; "summary" ] →
  flat !! k = run !! k.
Proof.
  intros (d & _ & ->)%flattenRunOutput_inv Hk.
  rewrite !not_elem_of_cons in Hk. destruct_and!.
  rewrite with_derived_lookup, strip_internal_lookup.
  rewrite !decide_False; [done|..]; try done.
  intros Hin%internal_field_iff. rewrite !elem_of_cons, elem_of_nil in Hin.
  tauto.
Qed.

(** X24.  For a webhook payload with a run, the trigger emits the normalised
    run with [event] and [timestamp] added; the run's fields come last, so a
    top-level [event] or [timestamp] of the run itself replaces the
    payload's.  If the normaliser raises, so does the handler. *)
Theorem buildTriggerOutput_with_run (body run : obj) :
  field body "run" = VObj run →
  match flattenRunOutput run with
  | Ok flat =>
      ∃ out, buildTriggerOutput body = Ok out
        ∧ (∀ k, k ≠ "event" → k ≠ "timestamp" → out !! k = flat !! k)
        ∧ out !! "event"
          = Some (default (field body "event") (run !! "event"))
        ∧ out !! "timestamp"
          = Some (default (field body "timestamp") (run !! "timestamp"))
  | Throw e => buildTriggerOutput body = Throw e
  end.
Proof.
  intros Hrun. unfold buildTriggerOutput. rewrite Hrun. simpl.
  destruct (flattenRunOutput run) as [flat|e] eqn:Hflat; [|done].
  simpl. eexists. split; [done|].
  assert (He : flat !! "event" = run !! "event").
  { apply (flattenRunOutput_other run); [done|].
    intros H%list_elem_of_In. simpl in H.
    repeat destruct H as [H|H]; solve [discriminate H | destruct H]. }
  assert (Ht : flat !! "timestamp" = run !! "timestamp").
  { apply (flattenRunOutput_other run); [done|].
    intros H%list_elem_of_In. simpl in H.
    repeat destruct H as [H|H]; solve [discriminate H | destruct H]. }
  split; [|split].
  - intros k Hk1 Hk2. rewrite lookup_union.
    rewrite lookup_insert_ne, lookup_singleton_ne by done.
    by destruct (flat !! k).
  - rewrite lookup_union, He, lookup_insert_eq. by destruct (run !! "event").
  - rewrite lookup_union, Ht, lookup_insert_ne, lookup_singleton_eq by done.
    by destruct (run !! "timestamp").
Qed.

Lemma buildTriggerOutput_with_run_witness :
  ∃ out,
    buildTriggerOutput
      {[ "event" := VStr "run.completed"; "timestamp" := VNum 17;
         "run" := VObj (<["event" := VStr "own"]> example_run) ]} = Ok out
    ∧ out !! "event" = Some (VStr "own")
    ∧ out !! "timestamp" = Some (VNum 17)
    ∧ out !! "summary" = Some (VStr "s").
Proof.
  pose proof (buildTriggerOutput_with_run
    {[ "event" := VStr "run.completed"; "timestamp" := VNum 17;
       "run" := VObj (<["event" := VStr "own"]> example_run) ]}
    (<["event" := VStr "own"]> example_run) eq_refl) as H.
  assert (Hflat : flattenRunOutput (<["event" := VStr "own"]> example_run)
                  = Ok (<["event" := VStr "own"]> example_out))
    by reflexivity.
  rewrite Hflat in H. destruct H as (out & Hout & Hk & He & Ht).
  exists out. split; [exact Hout|]. split; [exact He|]. split; [exact Ht|].
  rewrite Hk by discriminate. reflexivity.
Defined.

(** X25.  A payload without a run (absent, [null], or otherwise falsy)
    gives a record with just [event] and [timestamp], both always present
    as keys, and nothing is normalised. *)
Theorem buildTriggerOutput_without_run (body : obj) :
  truthy (field body "run") = false →
  ∃ out, buildTriggerOutput body = Ok out
    ∧ out !! "event" = Some (field body "event")
    ∧ out !! "timestamp" = Some (field body "timestamp")
    ∧ ∀ k, k ≠ "event" → k ≠ "timestamp" → out !! k = None.
Proof.
  intros Hrun. unfold buildTriggerOutput. rewrite Hrun. simpl.
  eexists. split; [done|]. split; [by rewrite lookup_insert_eq|].
  split; [by rewrite lookup_insert_ne, lookup_singleton_eq|].
  intros k ? ?. by rewrite lookup_insert_ne, lookup_singleton_ne.
Qed.

Lemma buildTriggerOutput_without_run_witness :
  ∃ out, buildTriggerOutput {[ "event" := VStr "ping"; "run" := VNull ]}
         = Ok out
    ∧ out !! "event" = Some (VStr "ping")
    ∧ out !! "timestamp" = Some VUndefined
    ∧ out !! "pr" = None.
Proof.
  destruct (buildTriggerOutput_without_run
              {[ "event" := VStr "ping"; "run" := VNull ]})
    as (out & Hout & He & Ht & Hk); [reflexivity|].
  exists out. split; [exact Hout|]. split; [exact He|]. split; [exact Ht|].
  apply Hk; discriminate.
Defined.

(** ** The node's [execute] method *)

Section ExecuteFacts.
Context (host : Host) (ex : Execution).

(** Items [i .. i + r) each either succeed or are collected: the loop
    returns one entry per item, in order, in the world the last item
    left. *)
Lemma execute_loop_collects (w0 : World) : ∀ (r i : nat) returnData,
  (∀ j, (i ≤ j < i + r)%nat →
     continueOnFail ex = true
     ∨ ∃ result,
         (run_operation host ex j (item_world host ex w0 j)).1 = Ok result) →
  execute_loop host ex i r returnData (item_world host ex w0 i)
  = (Ok (returnData
         ++ ((λ j, {| json := item_json host ex w0 j; pairedItem := j |})
               <$> seq i r)),
     item_world host ex w0 (i + r)).
Proof.
  induction r as [|r IH]; intros i returnData Hitems.
  { simpl. by rewrite app_nil_r, Nat.add_0_r. }
  simpl. unfold item_json at 1.
  specialize (IH (S i)). simpl in IH.
  destruct (run_operation host ex i (item_world host ex w0 i))
    as [[result|error] w'] eqn:Hrun; simpl.
  - rewrite IH by (intros j Hj; apply Hitems; lia).
    rewrite <- app_assoc. simpl. by replace (i + S r)%nat with (S (i + r)) by lia.
  - destruct (Hitems i) as [Hc|[result Hr]]; [lia| |by rewrite Hrun in Hr].
    rewrite Hc, IH by (intros j Hj; apply Hitems; lia).
    rewrite <- app_assoc. simpl. by replace (i + S r)%nat with (S (i + r)) by lia.
Qed.

(** Items [i .. f) succeed, item [f] fails and failures are not collected:
    the loop stops there. *)
Lemma execute_loop_aborts (w0 : World) (f : nat) e wf : ∀ (r i : nat) returnData,
  continueOnFail ex = false →
  (i ≤ f < i + r)%nat →
  (∀ j, (i ≤ j < f)%nat →
     ∃ result,
       (run_operation host ex j (item_world host ex w0 j)).1 = Ok result) →
  run_operation host ex f (item_world host ex w0 f) = (Throw e, wf) →
  execute_loop host ex i r returnData (item_world host ex w0 i)
  = (Throw (NodeOperationError (error_message ex f e) (Some f)), wf).
Proof.
  induction r as [|r IH]; intros i returnData Hc Hf Hok Hfail; [lia|].
  simpl. specialize (IH (S i)). simpl in IH.
  destruct (decide (i = f)) as [->|Hne].
  - rewrite Hfail, Hc. by destruct e.
  - destruct (Hok i) as [result Hr]; [lia|].
    destruct (run_operation host ex i (item_world host ex w0 i))
      as [[result'|error] w'] eqn:Hrun; simpl in Hr; [|done].
    apply IH; [done|lia| |done]. intros j Hj. apply Hok. lia.
Qed.

End ExecuteFacts.



(** X27.  Without continue-on-fail the first failing item aborts the
    execution: when the items before item [i] succeed and item [i] fails,
    [execute] raises a [NodeOperationError] with that item's error message
    and item index [i], in the world that item left; no later item is
    processed and no results are returned. *)
Theorem execute_fails_fast (host : Host) (ex : Execution) (w wf : World)
    (i : nat) (e : exn) :
  continueOnFail ex = false →
  (i < inputItems ex)%nat →
  (∀ j, (j < i)%nat →
     ∃ result,
       (run_operation host ex j (item_world host ex w j)).1 = Ok result) →
  run_operation host ex i (item_world host ex w i) = (Throw e, wf) →
  execute host ex w
  = (Throw (NodeOperationError (error_message ex i e) (Some i)), wf).
Proof.
  intros Hc Hi Hok Hfail. unfold execute, mbind, M_bind.
  change w with (item_world host ex w 0) at 1.
  rewrite (execute_loop_aborts host ex w i e wf); try done; [lia|].
  intros j Hj. apply Hok. lia.
Qed.

Lemma execute_fails_fast_witness :
  execute down_host (sample_execution false) start
  = (Throw (NodeOperationError (VStr "X") (Some 0%nat)),
     (getRun down_host 0 start).2).
Proof.
  apply (execute_fails_fast down_host (sample_execution false) start _ 0
           (NodeOperationError (VStr "X") None)).
  - reflexivity.
  - simpl. lia.
  - intros j Hj. lia.
  - reflexivity.
Defined.

(** X28.  When every item succeeds, [execute] returns the operations'
    results in input order, each paired with its item index, whatever the
    continue-on-fail setting. *)
Theorem execute_all_succeed (host : Host) (ex : Execution) (w : World) :
  (∀ j, (j < inputItems ex)%nat →
     ∃ result,
       (run_operation host ex j (item_world host ex w j)).1 = Ok result) →
  ∃ results : list obj,
    execute host ex w
    = (Ok [ imap (λ j result, {| json := result; pairedItem := j |}) results ],
       item_world host ex w (inputItems ex))
    ∧ length results = inputItems ex
    ∧ ∀ j, (j < inputItems ex)%nat →
        Ok <$> results !! j
        = Some (run_operation host ex j (item_world host ex w j)).1.
Proof.
  intros Hok.
  exists (item_json host ex w <$> seq 0 (inputItems ex)).
  split; [|split].
  - assert (Hlist : ∀ n,
      imap (λ j result, {| json := result; pairedItem := j |})
        (item_json host ex w <$> seq 0 n)
      = (λ j, {| json := item_json host ex w j; pairedItem := j |})
          <$> seq 0 n).
    { intros n. apply list_eq. intros j.
      rewrite list_lookup_imap, !list_lookup_fmap.
      destruct (decide (j < n)%nat).
      + rewrite lookup_seq_lt by done. reflexivity.
      + rewrite lookup_seq_ge by lia. reflexivity. }
    unfold execute, mbind, M_bind.
    change w with (item_world host ex w 0) at 1.
    rewrite execute_loop_collects by (intros j Hj; right; apply Hok; lia).
    rewrite Hlist. reflexivity.
  - by rewrite length_fmap, length_seq.
  - intros j Hj. rewrite list_lookup_fmap, lookup_seq_lt by done. simpl.
    unfold item_json. destruct (Hok j Hj) as [result ->]. reflexivity.
Qed.

Lemma execute_all_succeed_witness :
  ∃ results : list obj,
    (execute (scripted_host false []) (sample_execution false) start).1
    = Ok [ imap (λ j result, {| json := result; pairedItem := j |}) results ]
    ∧ length results = 2%nat.
Proof.
  destruct (execute_all_succeed (scripted_host false [])
              (sample_execution false) start)
    as (results & Hex & Hlen & _).
  - intros j Hj. destruct j as [|[|j]]; [| |simpl in Hj; lia].
    + eexists. reflexivity.
    + eexists. reflexivity.
  - exists results. rewrite Hex. split; [reflexivity|exact Hlen].
Defined.
